(** * cl: filtering data by columns on the command line

    A shallow embedding of [main.go] (package [main] of dankinder/cl) and a
    verification of its documented behaviour.

    The program is one function, [run], which

    - parses the command line with Go's [flag] package,
    - turns the positional arguments into a set of 1-based column numbers,
    - resolves the separator ([-s], [-t] or the whitespace default),
    - scans standard input line by line, splits every line and prints the
      selected fields, tab separated, one output line per input line.

    Go strings are byte sequences: they are modelled as [string] (a list of
    [ascii], i.e. of bytes).  The Go [int64] is modelled as [Z] with the
    wrap-around written out.  The [map[int64]struct{}] used as a set is a
    [gset Z].  The library functions [run] calls ([strconv.ParseInt],
    [flag.Parse], [strings.Fields], [bufio.Scanner], [Regexp.Split]) are
    modelled after the Go standard library; the regular expression matcher
    itself is an interface ([regexp.Engine]). *)

From Stdlib Require Import ZArith NArith Lia Bool List Ascii String.
From stdpp Require Import base decidable gmap strings list.

Import ListNotations.
Local Open Scope Z_scope.

(** ** Bytes and strings *)

Module Bytes.

(** The numeric value of a byte, as Go's [s[i]] read as an integer. *)
Definition code (c : ascii) : Z := Z.of_N (N_of_ascii c).

Definition tab : ascii := ascii_of_nat 9.
Definition newline : ascii := ascii_of_nat 10.
Definition carriage_return : ascii := ascii_of_nat 13.

(** [len(s)] as a Go [int]. *)
Definition len (s : string) : Z := Z.of_nat (String.length s).

(** [s[n:]] for [0 <= n]; the whole of [s] is dropped when [n] exceeds its
    length (the callers below never do that). *)
Fixpoint drop (n : nat) (s : string) : string :=
  match n, s with
  | O, _ => s
  | S n', String _ s' => drop n' s'
  | S _, EmptyString => EmptyString
  end.

(** [s[:n]]. *)
Fixpoint take (n : nat) (s : string) : string :=
  match n, s with
  | O, _ => EmptyString
  | S n', String c s' => String c (take n' s')
  | S _, EmptyString => EmptyString
  end.

(** [s[lo:hi]]. *)
Definition slice (lo hi : nat) (s : string) : string :=
  take (hi - lo) (drop lo s).

End Bytes.

(** ** strconv.ParseInt(s, 10, 64) *)

Module strconv.

Inductive NumError := ErrSyntax | ErrRange.

Definition maxUint64 : Z := 2 ^ 64 - 1.

(** [int64(x)]: the two's complement reading of the low 64 bits. *)
Definition int64 (x : Z) : Z := (x + 2 ^ 63) mod 2 ^ 64 - 2 ^ 63.

(** The digit value [ParseUint] gives a byte: ['0'..'9'], then letters from
    10 on; any other byte is a syntax error.  With base 10 every value of
    10 or more is rejected by the caller. *)
Definition digit_val (c : ascii) : option Z :=
  let d := Bytes.code c in
  if (48 <=? d) && (d <=? 57) then Some (d - 48)
  else if (97 <=? d) && (d <=? 122) then Some (d - 97 + 10)
  else if (65 <=? d) && (d <=? 90) then Some (d - 65 + 10)
  else None.

(** The digit loop of [ParseUint] for base 10 and 64 bits: [n] is the value
    accumulated so far.  An underscore is only legal with base 0, so here
    it falls in the syntax-error case like any other non-digit.  A range
    error returns at once, before the remaining bytes are looked at. *)
Fixpoint parse_digits (n : Z) (s : string) : Z + NumError :=
  match s with
  | EmptyString => inl n
  | String c s' =>
      match digit_val c with
      | None => inr ErrSyntax
      | Some d =>
          if 10 <=? d then inr ErrSyntax
          else if maxUint64 / 10 + 1 <=? n then inr ErrRange
          else
            let n1 := n * 10 + d in
            if maxUint64 <? n1 then inr ErrRange
            else parse_digits n1 s'
      end
  end.

Definition ParseUint (s : string) : Z + NumError :=
  match s with
  | EmptyString => inr ErrSyntax
  | _ => parse_digits 0 s
  end.

Definition ParseInt (s : string) : Z + NumError :=
  match s with
  | EmptyString => inr ErrSyntax
  | String c0 s1 =>
      let neg := Ascii.eqb c0 "-" in
      let digits := if Ascii.eqb c0 "+" || neg then s1 else s in
      match ParseUint digits with
      | inr ErrSyntax => inr ErrSyntax
      | r =>
          (* a range error of ParseUint continues with un = maxUint64 *)
          let un := match r with inl u => u | inr _ => maxUint64 end in
          let cutoff := 2 ^ 63 in
          if negb neg && (cutoff <=? un) then inr ErrRange
          else if neg && (cutoff <? un) then inr ErrRange
          else
            let n := int64 un in
            inl (if neg then int64 (- n) else n)
      end
  end.

(** [strconv.ParseBool], which [flag] uses for [-i=value] and [-t=value]. *)
Definition ParseBool (str : string) : option bool :=
  if existsb (String.eqb str) ["1"; "t"; "T"; "true"; "TRUE"; "True"] then Some true
  else if existsb (String.eqb str) ["0"; "f"; "F"; "false"; "FALSE"; "False"] then Some false
  else None.

End strconv.

(** ** flag.Parse()

    The three flags [init] registers, and [flag.Parse] over them.  The
    function follows [FlagSet.parseOne] of the Go standard library: parsing
    stops just before the first argument that is not a flag (shorter than
    two bytes, or not starting with a minus sign) and after the terminator
    [--]; everything from there on is what [flag.Args()] returns. *)

Module flag.

Record Flags := mkFlags {
  separator : string;        (* -s *)
  useTabSeparator : bool;    (* -t *)
  ignoreHeaderRow : bool     (* -i *)
}.

(** The default values given to [flag.StringVar] and [flag.BoolVar]. *)
Definition defaults : Flags :=
  {| separator := ""; useTabSeparator := false; ignoreHeaderRow := false |}.

Inductive Error :=
| ErrHelp                                   (* -h or -help *)
| BadSyntax (arg : string)                  (* bad flag syntax *)
| NotDefined (name : string)                (* flag provided but not defined *)
| InvalidBoolean (value name : string)      (* invalid boolean value *)
| NeedsArgument (name : string).            (* flag needs an argument *)

Inductive Result :=
| Parsed (fl : Flags) (args : list string)
| Failed (e : Error).

(** [name[i] == '='] for the first [i >= 0] of [s]: the text before and
    after the sign. *)
Fixpoint cut_equals (s : string) : option (string * string) :=
  match s with
  | EmptyString => None
  | String c s' =>
      if Ascii.eqb c "=" then Some (EmptyString, s')
      else match cut_equals s' with
           | Some (a, b) => Some (String c a, b)
           | None => None
           end
  end.

(** The loop [for i := 1; i < len(name); i++] of [parseOne]: an equals
    sign cannot be first. *)
Definition split_value (name : string) : string * option string :=
  match name with
  | EmptyString => (name, None)
  | String c rest =>
      match cut_equals rest with
      | Some (a, b) => (String c a, Some b)
      | None => (name, None)
      end
  end.

Definition set_bool (name : string) (value : option string)
    (k : bool -> Result) : Result :=
  match value with
  | None => k true
  | Some v =>
      match strconv.ParseBool v with
      | Some b => k b
      | None => Failed (InvalidBoolean v name)
      end
  end.

Fixpoint Parse (fl : Flags) (args : list string) : Result :=
  match args with
  | [] => Parsed fl []
  | s :: rest =>
      match s with
      | String c0 (String c1 s2) =>
          if negb (Ascii.eqb c0 "-") then Parsed fl args
          else
            let two := Ascii.eqb c1 "-" in
            if two && String.eqb s2 EmptyString then Parsed fl rest
            else
              let name := if two then s2 else String c1 s2 in
              match name with
              | EmptyString => Failed (BadSyntax s)
              | String n0 _ =>
                  if Ascii.eqb n0 "-" || Ascii.eqb n0 "=" then Failed (BadSyntax s)
                  else
                    let '(name, value) := split_value name in
                    if String.eqb name "i" then
                      set_bool name value (fun b =>
                        Parse (mkFlags (separator fl) (useTabSeparator fl) b) rest)
                    else if String.eqb name "t" then
                      set_bool name value (fun b =>
                        Parse (mkFlags (separator fl) b (ignoreHeaderRow fl)) rest)
                    else if String.eqb name "s" then
                      match value with
                      | Some v =>
                          Parse (mkFlags v (useTabSeparator fl) (ignoreHeaderRow fl)) rest
                      | None =>
                          match rest with
                          | v :: rest' =>
                              Parse (mkFlags v (useTabSeparator fl) (ignoreHeaderRow fl)) rest'
                          | [] => Failed (NeedsArgument name)
                          end
                      end
                    else if String.eqb name "help" || String.eqb name "h" then Failed ErrHelp
                    else Failed (NotDefined name)
              end
      | _ => Parsed fl args          (* len(s) < 2 *)
      end
  end.

(** [CommandLine] is an [ExitOnError] flag set: [-h] exits with 0, every
    other failure with 2. *)
Definition exit_code (e : Error) : Z :=
  match e with ErrHelp => 0 | _ => 2 end.

End flag.

(** ** bufio.Scanner with the default split function, ScanLines *)

Module bufio.

(** What [stdin] delivers to successive [Read] calls: its bytes, and then
    either a clean end of file ([failure = None]) or a read error. *)
Record Reader := mkReader {
  data : string;
  failure : option string
}.

Inductive Error :=
| ErrTooLong                    (* bufio.Scanner: token too long *)
| ReadError (cause : string).   (* the error the Reader returned *)

(** [MaxScanTokenSize]: the size the buffer can grow to.  A line is handed
    out when it fits in the buffer with its newline, or without one at the
    end of the input; a line of this many bytes or more never does. *)
Definition MaxScanTokenSize : N := 64 * 1024.

Definition too_long (line : string) : bool :=
  (MaxScanTokenSize <=? N.of_nat (String.length line))%N.

(** [dropCR]: a final carriage return is not part of the line. *)
Fixpoint dropCR (line : string) : string :=
  match line with
  | EmptyString => EmptyString
  | String c EmptyString =>
      if Ascii.eqb c Bytes.carriage_return then EmptyString else line
  | String c rest => String c (dropCR rest)
  end.

(** The tokens successive calls of [Scan] deliver, and whether scanning
    stopped because a line did not fit the buffer.  [cur] holds the bytes
    of the line being read.  At the end of the input a last line without
    newline is a token, unless it is empty. *)
Fixpoint tokens (cur : string) (input : string) : list string * bool :=
  match input with
  | EmptyString =>
      if String.eqb cur EmptyString then ([], false)
      else if too_long cur then ([], true)
      else ([dropCR cur], false)
  | String c rest =>
      if Ascii.eqb c Bytes.newline then
        if too_long cur then ([], true)
        else let '(ls, long) := tokens EmptyString rest in (dropCR cur :: ls, long)
      else tokens (String.append cur (String c EmptyString)) rest
  end.

(** A whole scan: the texts [scanner.Text()] returns in the loop
    [for scanner.Scan() { ... }], and [scanner.Err()] after it.  A read
    error still lets the scanner hand out what it has buffered. *)
Definition scan (r : Reader) : list string * option Error :=
  let '(ls, long) := tokens EmptyString (data r) in
  (ls, if long then Some ErrTooLong
       else match failure r with
            | Some cause => Some (ReadError cause)
            | None => None
            end).

End bufio.

(** ** unicode/utf8 and strings.Fields *)

Module utf8.

Definition RuneError : Z := 0xFFFD.

(** The table [first] with [acceptRanges]: what the first byte of an
    encoding announces. *)
Inductive lead :=
| One (r : Z)                      (* a rune of one byte, or an invalid byte *)
| Multi (sz : nat) (lo hi : Z).    (* size, and the range of the second byte *)

Definition first (s0 : Z) : lead :=
  if s0 <? 0x80 then One s0
  else if s0 <? 0xC2 then One RuneError
  else if s0 <? 0xE0 then Multi 2 0x80 0xBF
  else if s0 =? 0xE0 then Multi 3 0xA0 0xBF
  else if s0 <? 0xED then Multi 3 0x80 0xBF
  else if s0 =? 0xED then Multi 3 0x80 0x9F
  else if s0 <? 0xF0 then Multi 3 0x80 0xBF
  else if s0 =? 0xF0 then Multi 4 0x90 0xBF
  else if s0 <? 0xF4 then Multi 4 0x80 0xBF
  else if s0 =? 0xF4 then Multi 4 0x80 0x8F
  else One RuneError.

(** [s < locb || hicb < s]: not a continuation byte. *)
Definition not_cont (b : ascii) : bool :=
  (Bytes.code b <? 0x80) || (0xBF <? Bytes.code b).

Definition low (bits : Z) (b : ascii) : Z := Z.land (Bytes.code b) (2 ^ bits - 1).

(** [for _, r := range s]: the runes of [s], each with the bytes it was
    decoded from, as [DecodeRuneInString] does it.  A byte that starts no
    valid encoding is the rune [RuneError] of width 1. *)
Fixpoint runes (s : string) : list (Z * string) :=
  match s with
  | EmptyString => []
  | String b0 t1 =>
      let bad := (RuneError, String b0 EmptyString) :: runes t1 in
      match first (Bytes.code b0) with
      | One r => (r, String b0 EmptyString) :: runes t1
      | Multi sz lo hi =>
          match t1 with
          | EmptyString => bad
          | String b1 t2 =>
              if (Bytes.code b1 <? lo) || (hi <? Bytes.code b1) then bad
              else if (sz <=? 2)%nat then
                (Z.lor (Z.shiftl (low 5 b0) 6) (low 6 b1),
                 String b0 (String b1 EmptyString)) :: runes t2
              else
                match t2 with
                | EmptyString => bad
                | String b2 t3 =>
                    if not_cont b2 then bad
                    else if (sz <=? 3)%nat then
                      (Z.lor (Z.shiftl (low 4 b0) 12)
                         (Z.lor (Z.shiftl (low 6 b1) 6) (low 6 b2)),
                       String b0 (String b1 (String b2 EmptyString))) :: runes t3
                    else
                      match t3 with
                      | EmptyString => bad
                      | String b3 t4 =>
                          if not_cont b3 then bad
                          else
                            (Z.lor (Z.shiftl (low 3 b0) 18)
                               (Z.lor (Z.shiftl (low 6 b1) 12)
                                  (Z.lor (Z.shiftl (low 6 b2) 6) (low 6 b3))),
                             String b0 (String b1 (String b2 (String b3 EmptyString))))
                            :: runes t4
                      end
                end
          end
      end
  end.

End utf8.

Module unicode.

(** [unicode.IsSpace]: the Latin-1 spaces, and beyond them the table
    [White_Space]. *)
Definition IsSpace (r : Z) : bool :=
  if r <=? 0xFF then
    existsb (Z.eqb r) [0x09; 0x0A; 0x0B; 0x0C; 0x0D; 0x20; 0x85; 0xA0]
  else
    (r =? 0x1680) || ((0x2000 <=? r) && (r <=? 0x200A))
    || (r =? 0x2028) || (r =? 0x2029) || (r =? 0x202F)
    || (r =? 0x205F) || (r =? 0x3000).

End unicode.

Module strings.

(** The loop of [FieldsFunc] over the runes of the string.  [cur] is the
    field being read ([start >= 0] in the Go code), [None] between
    fields. *)
Fixpoint fields_of (f : Z -> bool) (cur : option string)
    (rs : list (Z * string)) : list string :=
  match rs with
  | [] => match cur with Some w => [w] | None => [] end
  | (r, enc) :: rs' =>
      if f r then
        match cur with
        | Some w => w :: fields_of f None rs'
        | None => fields_of f None rs'
        end
      else
        fields_of f
          (Some (match cur with Some w => String.append w enc | None => enc end)) rs'
  end.

Definition FieldsFunc (s : string) (f : Z -> bool) : list string :=
  fields_of f None (utf8.runes s).

(** [strings.Fields]: on a string with a byte of 0x80 or more it is
    [FieldsFunc(s, unicode.IsSpace)]; on an ASCII string its fast path
    computes the same fields from the table [asciiSpace], the six ASCII
    members of [unicode.IsSpace]. *)
Definition Fields (s : string) : list string := FieldsFunc s unicode.IsSpace.

End strings.

(** ** regexp

    The matcher of Go's [regexp] package is not part of the program: it is
    an interface, [Engine].  [Compile] and [Split] are written over it as in
    the Go library. *)

Module regexp.

Class Engine := {
  Prog : Type;
  (** compiling a pattern; [inr] carries the text of the error *)
  compile : string -> Prog + string;
  (** [FindAllStringIndex(s, -1)]: the successive matches in [s], each
      as the byte offsets of its start and of its end *)
  findAll : Prog -> string -> list (nat * nat)
}.

(** [Regexp]: the pattern it was compiled from, and the program. *)
Record Regexp `{Engine} := mkRegexp {
  expr : string;
  prog : Prog
}.

Definition Compile `{Engine} (pattern : string) : Regexp + string :=
  match compile pattern with
  | inl p => inl (mkRegexp _ pattern p)
  | inr e => inr e
  end.

(** One turn of the loop of [Split] over a match [(m0, m1)]: the state is
    the slice [strings] and the offsets [beg] and [end]. *)
Definition split_step (s : string) (st : list string * nat * nat)
    (m : nat * nat) : list string * nat * nat :=
  let '(strings, beg, _) := st in
  let '(m0, m1) := m in
  (if (m1 =? 0)%nat then strings else strings ++ [Bytes.slice beg m0 s], m1, m0).

(** The loop of [Split] over the matches, and the piece after the last
    match, which is added unless the last match starts at the end of
    [s]. *)
Definition split_matches (s : string) (matches : list (nat * nat)) : list string :=
  let '(strings, beg, end_) := fold_left (split_step s) matches ([], O, O) in
  if negb (end_ =? String.length s)%nat then strings ++ [Bytes.drop beg s]
  else strings.

(** [re.Split(s, -1)]. *)
Definition Split `{Engine} (re : Regexp) (s : string) : list string :=
  if (0 <? Bytes.len (expr re)) && (Bytes.len s =? 0) then [EmptyString]
  else split_matches s (findAll (prog re) s).

(** *** Literal patterns

    A pattern without any of the bytes that [regexp.QuoteMeta] escapes,
    made of ASCII bytes only, stands for its own text. *)
Definition meta (c : ascii) : bool :=
  existsb (Ascii.eqb c)
    ["\"; "."; "+"; "*"; "?"; "("; ")"; "|"; "["; "]"; "{"; "}"; "^"; "$"]%char.

Fixpoint plain (pattern : string) : bool :=
  match pattern with
  | EmptyString => true
  | String c rest => negb (meta c) && (Bytes.code c <? 0x80) && plain rest
  end.

Definition is_literal (pattern : string) : bool :=
  negb (String.eqb pattern EmptyString) && plain pattern.

(** [strings.HasPrefix(s, p)]. *)
Fixpoint has_prefix (p s : string) : bool :=
  match p, s with
  | EmptyString, _ => true
  | String a p', String b s' => Ascii.eqb a b && has_prefix p' s'
  | String _ _, EmptyString => false
  end.

(** The occurrences of the text [p] in [s], leftmost first, none
    overlapping an earlier one.  [pos] is the offset of [s] in the whole
    string and [skip] the number of bytes still covered by the last
    occurrence. *)
Fixpoint occurrences (p : string) (skip pos : nat) (s : string) : list (nat * nat) :=
  match s with
  | EmptyString => []
  | String _ s' =>
      match skip with
      | S k => occurrences p k (S pos) s'
      | O =>
          if has_prefix p s then
            (pos, (pos + String.length p)%nat)
              :: occurrences p (String.length p - 1) (S pos) s'
          else occurrences p O (S pos) s'
      end
  end.

(** What is assumed of the matcher: a literal pattern compiles, and its
    matches are the occurrences of its text. *)
Definition LiteralFaithful (E : Engine) : Prop :=
  forall pattern, is_literal pattern = true ->
    exists p, compile pattern = inl p
              /\ forall s, findAll p s = occurrences pattern O O s.

(** The matcher restricted to literal patterns: an engine that satisfies
    [LiteralFaithful], on which the examples are run. *)
Definition LiteralEngine : Engine :=
  {| Prog := string;
     compile pattern :=
       if is_literal pattern then inl pattern
       else inr "not a literal pattern";
     findAll p s := occurrences p O O s |}.

End regexp.

(** ** The program *)

(** What the program writes to the error stream, one constructor for each
    call that writes there, with its operands. *)
Inductive Diagnostic :=
| FlagError (e : flag.Error)
    (* the message of flag.Parse for a bad flag *)
| FlagDefaults
    (* flag.PrintDefaults(): the table of the options *)
| ErrParseArgument (arg : string) (e : strconv.NumError)
    (* "ERROR: failed to parse argument %q: %v\n" *)
| ErrInvalidColumn (c : Z)
    (* "ERROR: argument %q is invalid, column indexes must be positive numbers\n" *)
| ErrBothSeparators
    (* "ERROR: you cannot use both -s and -t" *)
| ErrSeparatorCompile (separator reason : string)
    (* "ERROR: could not parse separator %q as a regular expression: %v\n" *)
| ErrReadInput (e : bufio.Error).
    (* "ERROR: failed to read input: %v\n" *)

(** What a run of the process leaves behind: the status it exits with, the
    bytes written to standard output, the messages written to standard
    error, and the number of calls of [scanner.Scan()], the only place where
    standard input is read. *)
Record Outcome := mkOutcome {
  status : Z;
  stdout : string;
  stderr : list Diagnostic;
  scans : nat
}.

Definition tb : string := String Bytes.tab EmptyString.
Definition nl : string := String Bytes.newline EmptyString.
Definition quote : string := String (ascii_of_nat 34) EmptyString.

(** The text [flag.Usage] prints with [fmt.Printf], which writes to the
    standard output of the process. *)
Definition usage_text : string :=
  String.concat EmptyString (map (fun l => String.append l nl) [
    "Usage: cl [options...] <column_indexes...>";
    "";
    "cl is a tool for filtering data by columns on the command line.";
    "";
    "Examples:";
    "";
    tb +:+ "Filter a simple table of data for the second column:";
    tb +:+ "$ echo " +:+ quote +:+ "1 2 3";
    tb +:+ "> 4 5 6";
    tb +:+ "> 7 8 9" +:+ quote +:+ " | cl 2";
    tb +:+ "2";
    tb +:+ "5";
    tb +:+ "8";
    "";
    tb +:+ "Grab a list of process IDs from ps, ignoring the header row (-i):";
    tb +:+ "$ ps | cl 1 -i";
    tb +:+ "7958";
    tb +:+ "29855";
    "";
    tb +:+ "Grab the third column of output when there may be spaces, in values, and tabs are the separator (-t):";
    tb +:+ "$ netstat | cl 3 -t";
    "";
    tb +:+ "Or the first 2 columns:";
    tb +:+ "$ netstat | cl 1 2 -t";
    "";
    tb +:+ "Or the first 4 columns (in bash):";
    tb +:+ "$ netstat | cl {1..4} -t";
    "";
    "Options:"
  ]).

Section Program.

Context {E : regexp.Engine}.

(** The loop over [flag.Args()]: [columns] is the set built so far. *)
Fixpoint parse_columns (columns : gset Z) (args : list string)
    : gset Z + Diagnostic :=
  match args with
  | [] => inl columns
  | arg :: rest =>
      match strconv.ParseInt arg with
      | inr e => inr (ErrParseArgument arg e)
      | inl c =>
          if c <? 1 then inr (ErrInvalidColumn c)
          else parse_columns ({[ c ]} ∪ columns) rest
      end
  end.

(** The loop [for i, f := range fields] on the fields from index [i] on.
    [i + 1] is at most the length of a slice, so [int64(i+1)] is exact. *)
Fixpoint print_fields (columns : gset Z) (i : nat) (fields : list string)
    (printedFirstColumn : bool) (out : string) : string :=
  match fields with
  | [] => out
  | f :: rest =>
      if bool_decide (Z.of_nat i + 1 ∈ columns) then
        let out := if printedFirstColumn then out +:+ tb else out in
        print_fields columns (S i) rest true (out +:+ f)
      else print_fields columns (S i) rest printedFirstColumn out
  end.

(** How a line is split: [strings.Fields] without a separator, and
    [separatorRegex.Split(text, -1)] with one. *)
Definition split_line (separatorRegex : option regexp.Regexp) (text : string)
    : list string :=
  match separatorRegex with
  | None => strings.Fields text
  | Some re => regexp.Split re text
  end.

(** The body of the scanning loop for a line that is not skipped. *)
Definition print_line (columns : gset Z) (separatorRegex : option regexp.Regexp)
    (text : string) (out : string) : string :=
  print_fields columns O (split_line separatorRegex text) false out +:+ nl.

(** The loop [for scanner.Scan() { ... }] over the lines still to come. *)
Fixpoint scan_loop (columns : gset Z) (separatorRegex : option regexp.Regexp)
    (ignoreHeaderRow firstRow : bool) (lines : list string) (out : string)
    : string :=
  match lines with
  | [] => out
  | text :: rest =>
      if firstRow && ignoreHeaderRow then
        scan_loop columns separatorRegex ignoreHeaderRow false rest out
      else
        scan_loop columns separatorRegex ignoreHeaderRow firstRow rest
          (print_line columns separatorRegex text out)
  end.

(** [flag.Usage()]: the text on standard output, the flags on standard
    error, where [flag.PrintDefaults] writes. *)
Definition usage (code : Z) (before : list Diagnostic) : Outcome :=
  mkOutcome code usage_text (before ++ [FlagDefaults]) O.

(** A failure before the input is read: a message and status 1. *)
Definition fail (d : Diagnostic) : Outcome := mkOutcome 1 EmptyString [d] O.

(** [if useTabSeparator { separator = "\t" }]: the separator in force. *)
Definition effective_separator (fl : flag.Flags) : string :=
  if flag.useTabSeparator fl then tb else flag.separator fl.

(** [separatorRegex]: [nil] for the empty separator, the compiled pattern
    otherwise; [inr] is the error of [regexp.Compile]. *)
Definition compile_separator (separator : string)
    : option regexp.Regexp + string :=
  if negb (String.eqb separator EmptyString) then
    match regexp.Compile separator with
    | inl re => inl (Some re)
    | inr e => inr e
    end
  else inl None.

(** The scanning part of [run]: the loop, then [scanner.Err()]. *)
Definition scan_and_split (columns : gset Z)
    (separatorRegex : option regexp.Regexp) (ignoreHeaderRow : bool)
    (stdin : bufio.Reader) : Outcome :=
  let '(lines, err) := bufio.scan stdin in
  let out :=
    scan_loop columns separatorRegex ignoreHeaderRow true lines EmptyString in
  match err with
  | Some e => mkOutcome 1 out [ErrReadInput e] (S (length lines))
  | None => mkOutcome 0 out [] (S (length lines))
  end.

(** [run] after [flag.Parse()], on the flags and [flag.Args()]. *)
Definition run_parsed (fl : flag.Flags) (args : list string)
    (stdin : bufio.Reader) : Outcome :=
  match parse_columns ∅ args with
  | inr d => fail d
  | inl columns =>
      if bool_decide (size columns = O) then usage 1 []
      else if negb (String.eqb (flag.separator fl) EmptyString)
              && flag.useTabSeparator fl then fail ErrBothSeparators
      else
        let separator := effective_separator fl in
        match compile_separator separator with
        | inr e => fail (ErrSeparatorCompile separator e)
        | inl separatorRegex =>
            scan_and_split columns separatorRegex (flag.ignoreHeaderRow fl) stdin
        end
  end.

(** The process: [main] exits with what [run] returns; a flag that does
    not parse ends the process inside [flag.Parse], after the message and
    the usage. *)
Definition run (args : list string) (stdin : bufio.Reader) : Outcome :=
  match flag.Parse flag.defaults args with
  | flag.Failed flag.ErrHelp => usage (flag.exit_code flag.ErrHelp) []
  | flag.Failed e => usage (flag.exit_code e) [FlagError e]
  | flag.Parsed fl positional => run_parsed fl positional stdin
  end.

End Program.

(** ** The words of the specification *)

(** The fields of a line with their 1-based column numbers, the first field
    of the list being number [i + 1]. *)
Definition numbered (i : nat) (fields : list string) : list (Z * string) :=
  imap (fun k f => (Z.of_nat (i + k) + 1, f)) fields.

(** The fields whose column number is requested, in the order of the line. *)
Definition selected_from (columns : gset Z) (i : nat) (fields : list string)
    : list string :=
  (filter (fun p => p.1 ∈ columns) (numbered i fields)).*2.

Definition selected (columns : gset Z) (fields : list string) : list string :=
  selected_from columns O fields.

(** The requested columns that exist in a line of [n] fields. *)
Definition present (columns : gset Z) (n : nat) : gset Z :=
  filter (fun c => 1 <= c <= Z.of_nat n) columns.

(** The output line for the fields of one input line. *)
Definition output_line (columns : gset Z) (fields : list string) : string :=
  String.concat tb (selected columns fields) +:+ nl.

(** The output for the lines that are processed, and the lines that are:
    all of them, or all but the first when the header row is ignored. *)
Definition output_of {E : regexp.Engine} (columns : gset Z)
    (separatorRegex : option regexp.Regexp) (lines : list string) : string :=
  String.concat EmptyString
    (map (fun text => output_line columns (split_line separatorRegex text)) lines).

Definition processed (ignoreHeaderRow : bool) (lines : list string) : list string :=
  if ignoreHeaderRow then tail lines else lines.

(** The tab [print_fields] writes before the first field it prints, when
    fields were printed before it. *)
Definition lead_tab (printed : bool) (sel : list string) : string :=
  match sel with
  | [] => EmptyString
  | _ :: _ => if printed then tb else EmptyString
  end.

(** A positional argument that stops the run, with the message it causes. *)
Definition column_error (arg : string) : option Diagnostic :=
  match strconv.ParseInt arg with
  | inr e => Some (ErrParseArgument arg e)
  | inl c => if c <? 1 then Some (ErrInvalidColumn c) else None
  end.

(** A message about the separator. *)
Definition separator_error (d : Diagnostic) : bool :=
  match d with
  | ErrBothSeparators | ErrSeparatorCompile _ _ => true
  | _ => false
  end.

(** "Split on whitespace runs, drop empty tokens", on the runes of a line:
    the tokens between the separators, empty ones included, and the words,
    which are the tokens that are not empty. *)
Fixpoint tokens_between (f : Z -> bool) (rs : list (Z * string))
    : list (list (Z * string)) :=
  match rs with
  | [] => [[]]
  | p :: rs' =>
      if f p.1 then [] :: tokens_between f rs'
      else match tokens_between f rs' with
           | t :: ts => (p :: t) :: ts
           | [] => [[p]]
           end
  end.

Definition words (f : Z -> bool) (rs : list (Z * string))
    : list (list (Z * string)) :=
  filter (fun t => t <> []) (tokens_between f rs).

(** The bytes a list of runes was decoded from. *)
Definition bytes_of (t : list (Z * string)) : string :=
  foldr (fun p acc => p.2 +:+ acc) EmptyString t.

(** The six ASCII white space bytes, and the strings made of them. *)
Definition ascii_space (c : ascii) : bool :=
  existsb (Z.eqb (Bytes.code c)) [0x09; 0x0A; 0x0B; 0x0C; 0x0D; 0x20].

Fixpoint all_bytes (P : ascii -> bool) (s : string) : bool :=
  match s with
  | EmptyString => true
  | String c s' => P c && all_bytes P s'
  end.

(** The pieces of [s] between the occurrences of the text [p], empty ones
    included: [cur] is the piece being read, and [skip] the number of bytes
    of the last occurrence still to pass. *)
Fixpoint pieces (p : string) (skip : nat) (cur : string) (s : string) : list string :=
  match s with
  | EmptyString => [cur]
  | String c s' =>
      match skip with
      | S k => pieces p k cur s'
      | O =>
          if regexp.has_prefix p s then cur :: pieces p (String.length p - 1) EmptyString s'
          else pieces p O (cur +:+ String c EmptyString) s'
      end
  end.

(** What the state of the loop of [Split] says about the piece being read,
    before the byte at offset [len(pre)]: between occurrences the piece
    starts at [beg]; inside one, [beg] is already the end of it. *)
Definition in_step (skip beg : nat) (cur pre : string) : Prop :=
  match skip with
  | O => (beg <= String.length pre)%nat /\ cur = Bytes.drop beg pre
  | S _ => beg = (String.length pre + skip)%nat /\ cur = EmptyString
  end.

(** A string that is empty or starts with an ASCII byte. *)
Definition ascii_head (t : string) : Prop :=
  match t with
  | EmptyString => True
  | String a _ => Bytes.code a < 0x80
  end.

(** ** The earlier revision

    An earlier revision of [run], also in the repository, has no [-i] and
    no usage text, and prints with [fmt.Fprintf(stdout, f)]: the field is
    the format.  [Fprintf0 format] stands for what [Fprintf] writes for a
    format without operands. *)

Section Legacy.

Variable Fprintf0 : string -> string.

Fixpoint print_fields_legacy (columns : gset Z) (i : nat) (fields : list string)
    (printedFirstColumn : bool) (out : string) : string :=
  match fields with
  | [] => out
  | f :: rest =>
      if bool_decide (Z.of_nat i + 1 ∈ columns) then
        let out := if printedFirstColumn then out +:+ Fprintf0 tb else out in
        print_fields_legacy columns (S i) rest true (out +:+ Fprintf0 f)
      else print_fields_legacy columns (S i) rest printedFirstColumn out
  end.

End Legacy.

(** The number of bytes [c] in [s]: with the newline, the number of lines
    a text ends. *)
Fixpoint count_byte (c : ascii) (s : string) : nat :=
  match s with
  | EmptyString => O
  | String b s' => ((if Ascii.eqb b c then 1 else 0) + count_byte c s')%nat
  end.

(** *** The earlier revision of [run]

    The whole of the earlier [run] after [flag.Parse()], on the values of
    its two flags and on [flag.Args()]: it has no check for an empty set of
    columns and no header row to ignore, and every write to standard output
    goes through [fmt.Fprintf] with the text as the format. *)

Section LegacyRun.

Context {E : regexp.Engine}.
Variable Fprintf0 : string -> string.

Fixpoint scan_loop_legacy (columns : gset Z) (separatorRegex : option regexp.Regexp)
    (lines : list string) (out : string) : string :=
  match lines with
  | [] => out
  | text :: rest =>
      scan_loop_legacy columns separatorRegex rest
        (print_fields_legacy Fprintf0 columns O
           (split_line separatorRegex text) false out +:+ Fprintf0 nl)
  end.

Definition run_legacy_parsed (separator : string) (useTabSeparator : bool)
    (args : list string) (stdin : bufio.Reader) : Outcome :=
  match parse_columns ∅ args with
  | inr d => fail d
  | inl columns =>
      if negb (String.eqb separator EmptyString) && useTabSeparator
      then fail ErrBothSeparators
      else
        let separator := if useTabSeparator then tb else separator in
        match compile_separator separator with
        | inr e => fail (ErrSeparatorCompile separator e)
        | inl separatorRegex =>
            let '(lines, err) := bufio.scan stdin in
            let out := scan_loop_legacy columns separatorRegex lines EmptyString in
            match err with
            | Some e => mkOutcome 1 out [ErrReadInput e] (S (length lines))
            | None => mkOutcome 0 out [] (S (length lines))
            end
        end
  end.

End LegacyRun.

(** What a decoded rune looks like: one ASCII byte that is the rune
    itself, or bytes of 0x80 and more. *)
Definition rune_shape (p : Z * string) : Prop :=
  (exists b, p.2 = String b EmptyString /\ Bytes.code b < 0x80 /\ p.1 = Bytes.code b)
  \/ all_bytes (fun b => 0x80 <=? Bytes.code b) p.2 = true.

(** * Verification *)

(** ** Strings *)

Module BytesFacts.

Lemma code_range c : 0 <= Bytes.code c < 256.
Proof.
  unfold Bytes.code. pose proof (N_ascii_bounded c) as H. lia.
Qed.

(** stdpp keeps [String.append] from unfolding under [simpl]; its two
    defining equations are used as rewrite rules instead. *)
Lemma append_nil_l t : EmptyString +:+ t = t.
Proof. reflexivity. Qed.

Lemma append_cons c s t : String c s +:+ t = String c (s +:+ t).
Proof. reflexivity. Qed.

Lemma append_empty_r s : s +:+ EmptyString = s.
Proof.
  induction s as [|c s IH]; [reflexivity|].
  rewrite append_cons. now f_equal.
Qed.

Lemma append_assoc a b c : (a +:+ b) +:+ c = a +:+ (b +:+ c).
Proof.
  induction a as [|x a IH]; [reflexivity|].
  rewrite !append_cons. now f_equal.
Qed.

Lemma append_inv_l a b c : a +:+ b = a +:+ c -> b = c.
Proof.
  induction a as [|x a IH]; [easy|].
  rewrite !append_cons. intros H. injection H. exact IH.
Qed.

Lemma append_eq_empty a b : a +:+ b = EmptyString -> a = EmptyString /\ b = EmptyString.
Proof. destruct a; [easy|]. rewrite append_cons. discriminate. Qed.

Lemma take_drop n s : Bytes.take n s +:+ Bytes.drop n s = s.
Proof.
  revert s. induction n as [|n IH]; intros [|c s]; try reflexivity.
  cbn [Bytes.take Bytes.drop]. rewrite append_cons. f_equal. apply IH.
Qed.

Lemma length_append a b :
  String.length (a +:+ b) = (String.length a + String.length b)%nat.
Proof.
  induction a as [|x a IH]; [reflexivity|].
  rewrite append_cons. cbn [String.length]. now rewrite IH.
Qed.

Lemma concat_cons2 sep x y l :
  String.concat sep (x :: y :: l) = x +:+ sep +:+ String.concat sep (y :: l).
Proof. reflexivity. Qed.

End BytesFacts.

Create Rewrite HintDb bytes.
#[local] Hint Rewrite BytesFacts.append_nil_l BytesFacts.append_cons
  BytesFacts.append_empty_r BytesFacts.append_assoc : bytes.

(** ** The library functions on examples *)

Example ParseInt_12 : strconv.ParseInt "12" = inl 12.
Proof. reflexivity. Qed.
Example ParseInt_plus : strconv.ParseInt "+7" = inl 7.
Proof. reflexivity. Qed.
Example ParseInt_neg : strconv.ParseInt "-3" = inl (-3).
Proof. reflexivity. Qed.
Example ParseInt_flag : strconv.ParseInt "-i" = inr strconv.ErrSyntax.
Proof. reflexivity. Qed.
Example ParseInt_min : strconv.ParseInt "-9223372036854775808" = inl (- 2 ^ 63).
Proof. vm_compute. reflexivity. Qed.
Example ParseInt_over : strconv.ParseInt "9223372036854775808" = inr strconv.ErrRange.
Proof. vm_compute. reflexivity. Qed.
Example ParseInt_huge : strconv.ParseInt "99999999999999999999999" = inr strconv.ErrRange.
Proof. vm_compute. reflexivity. Qed.
Example ParseInt_underscore : strconv.ParseInt "1_0" = inr strconv.ErrSyntax.
Proof. reflexivity. Qed.

Example Parse_flags_first :
  flag.Parse flag.defaults ["-i"; "1"] = flag.Parsed (flag.mkFlags "" false true) ["1"].
Proof. reflexivity. Qed.
Example Parse_flags_last :
  flag.Parse flag.defaults ["1"; "-i"] = flag.Parsed flag.defaults ["1"; "-i"].
Proof. reflexivity. Qed.
Example Parse_separator :
  flag.Parse flag.defaults ["-s"; ","; "-t"; "1"; "3"]
  = flag.Parsed (flag.mkFlags "," true false) ["1"; "3"].
Proof. reflexivity. Qed.
Example Parse_separator_eq :
  flag.Parse flag.defaults ["--s=,"; "--"; "-t"]
  = flag.Parsed (flag.mkFlags "," false false) ["-t"].
Proof. reflexivity. Qed.
Example Parse_unknown :
  flag.Parse flag.defaults ["-x"] = flag.Failed (flag.NotDefined "x").
Proof. reflexivity. Qed.

Example tokens_lines :
  bufio.scan (bufio.mkReader (String.append "a b" (String Bytes.newline
     (String.append "c" (String Bytes.carriage_return (String Bytes.newline "last"))))) None)
  = (["a b"; "c"; "last"], None).
Proof. reflexivity. Qed.
Example Fields_spaces : strings.Fields "  a   b  c " = ["a"; "b"; "c"].
Proof. vm_compute. reflexivity. Qed.
Example Fields_empty : strings.Fields "   " = [].
Proof. vm_compute. reflexivity. Qed.


(** ** Selecting and printing the fields of a line *)

Section Printing.

Context {E : regexp.Engine}.
Variable columns : gset Z.

Lemma numbered_cons i f rest :
  numbered i (f :: rest) = (Z.of_nat i + 1, f) :: numbered (S i) rest.
Proof.
  unfold numbered. cbn [imap]. f_equal.
  - now rewrite Nat.add_0_r.
  - apply imap_ext. intros k x _. cbn. do 3 f_equal. lia.
Qed.

Lemma selected_from_cons i f rest :
  selected_from columns i (f :: rest)
  = if bool_decide (Z.of_nat i + 1 ∈ columns)
    then f :: selected_from columns (S i) rest
    else selected_from columns (S i) rest.
Proof.
  unfold selected_from. rewrite numbered_cons, filter_cons. cbn [fst].
  case_bool_decide; case_decide; try contradiction; reflexivity.
Qed.

Lemma print_fields_spec fields : forall i printed out,
  print_fields columns i fields printed out
  = out +:+ lead_tab printed (selected_from columns i fields)
        +:+ String.concat tb (selected_from columns i fields).
Proof.
  induction fields as [|f rest IH]; intros i printed out.
  - cbn. now autorewrite with bytes.
  - cbn [print_fields]. rewrite selected_from_cons.
    case_bool_decide as Hin; rewrite IH; [|reflexivity].
    destruct (selected_from columns (S i) rest) as [|g sel] eqn:Hsel.
    + destruct printed; cbn [lead_tab String.concat]; now autorewrite with bytes.
    + rewrite BytesFacts.concat_cons2.
      destruct printed; cbn [lead_tab]; now autorewrite with bytes.
Qed.

Lemma print_line_spec separatorRegex text out :
  print_line columns separatorRegex text out
  = out +:+ output_line columns (split_line separatorRegex text).
Proof.
  unfold print_line, output_line, selected. rewrite print_fields_spec.
  destruct (selected_from columns 0 _); cbn [lead_tab]; now autorewrite with bytes.
Qed.

Lemma concat_empty_cons x l :
  String.concat EmptyString (x :: l) = x +:+ String.concat EmptyString l.
Proof. destruct l; cbn [String.concat]; now autorewrite with bytes. Qed.

Lemma output_of_cons re text lines :
  output_of columns re (text :: lines)
  = output_line columns (split_line re text) +:+ output_of columns re lines.
Proof. unfold output_of. cbn [map]. apply concat_empty_cons. Qed.

(** Once the first row is behind, or when no header is ignored, every
    line is printed. *)
Lemma scan_loop_all re ignoreHeaderRow firstRow lines : forall out,
  firstRow && ignoreHeaderRow = false ->
  scan_loop columns re ignoreHeaderRow firstRow lines out
  = out +:+ output_of columns re lines.
Proof.
  induction lines as [|text rest IH]; intros out Hskip.
  - cbn. now autorewrite with bytes.
  - cbn [scan_loop]. rewrite Hskip, IH by exact Hskip.
    rewrite print_line_spec, output_of_cons. now autorewrite with bytes.
Qed.

Lemma scan_loop_spec re ignoreHeaderRow lines out :
  scan_loop columns re ignoreHeaderRow true lines out
  = out +:+ output_of columns re (processed ignoreHeaderRow lines).
Proof.
  destruct ignoreHeaderRow; cbn [processed].
  - destruct lines as [|first rest]; cbn [scan_loop tail andb].
    + cbn. now autorewrite with bytes.
    + now apply scan_loop_all.
  - now apply scan_loop_all.
Qed.

(** *** Counting the selected fields *)

Lemma selected_from_snoc i fields f :
  selected_from columns i (fields ++ [f])
  = selected_from columns i fields
    ++ (if bool_decide (Z.of_nat (i + length fields) + 1 ∈ columns) then [f] else []).
Proof.
  unfold selected_from, numbered.
  rewrite imap_app, filter_app, fmap_app. f_equal.
  cbn [imap]. rewrite filter_cons, filter_nil. cbn [fst].
  rewrite Nat.add_0_r.
  case_bool_decide; case_decide; try contradiction; reflexivity.
Qed.

Lemma present_succ n :
  present columns (S n)
  = present columns n
    ∪ (if bool_decide (Z.of_nat n + 1 ∈ columns) then {[ Z.of_nat n + 1 ]} else ∅).
Proof.
  unfold present. apply set_eq. intros c.
  rewrite elem_of_union, !elem_of_filter.
  case_bool_decide as Hin.
  - rewrite elem_of_singleton. split.
    + intros [Hc Hcol]. destruct (decide (c = Z.of_nat n + 1)); [now right|left].
      split; [lia|exact Hcol].
    + intros [[Hc Hcol]| ->]; (split; [lia|assumption]).
  - rewrite elem_of_empty. split.
    + intros [Hc Hcol]. left. split; [|exact Hcol].
      destruct (decide (c = Z.of_nat n + 1)) as [->|]; [contradiction|lia].
    + intros [[Hc Hcol]|[]]. split; [lia|assumption].
Qed.

Lemma selected_length fields :
  length (selected columns fields) = size (present columns (length fields)).
Proof.
  unfold selected.
  induction fields as [|f fields IH] using rev_ind.
  - cbn. symmetry. apply size_empty_iff, elem_of_equiv_empty. unfold present.
    intros c. rewrite elem_of_filter. cbn. lia.
  - rewrite selected_from_snoc, !length_app, IH. cbn [length].
    rewrite Nat.add_1_r, present_succ. cbn [Nat.add].
    case_bool_decide as Hin.
    + rewrite size_union, size_singleton; [reflexivity|].
      unfold present. intros c. rewrite elem_of_filter, elem_of_singleton. lia.
    + now rewrite Nat.add_0_r, (right_id_L ∅ (∪)).
Qed.

End Printing.

(** ** The column arguments *)

Section Columns.

Context {E : regexp.Engine}.

Lemma column_error_None arg :
  column_error arg = None <-> exists c, strconv.ParseInt arg = inl c /\ 1 <= c.
Proof.
  unfold column_error. destruct (strconv.ParseInt arg) as [c|e].
  - destruct (Z.ltb_spec c 1); split.
    + discriminate.
    + intros (c' & [= <-] & Hc). lia.
    + intros _. now exists c.
    + reflexivity.
  - split; [discriminate | now intros (c & ? & _)].
Qed.

(** The message for a bad argument is never one about the separator. *)
Lemma column_error_kind arg d :
  column_error arg = Some d -> separator_error d = false.
Proof.
  unfold column_error. destruct (strconv.ParseInt arg) as [c|e].
  - destruct (c <? 1); [intros [= <-]; reflexivity | discriminate].
  - intros [= <-]. reflexivity.
Qed.

Lemma parse_columns_cons X arg rest :
  parse_columns X (arg :: rest)
  = match column_error arg with
    | Some d => inr d
    | None =>
        match strconv.ParseInt arg with
        | inl c => parse_columns ({[ c ]} ∪ X) rest
        | inr e => inr (ErrParseArgument arg e)
        end
    end.
Proof.
  cbn [parse_columns]. unfold column_error.
  destruct (strconv.ParseInt arg) as [c|e]; [|reflexivity].
  now destruct (c <? 1).
Qed.

(** The loop stops at the first bad argument, whatever follows it. *)
Lemma parse_columns_first_bad good : forall X bad rest d,
  Forall (fun a => column_error a = None) good ->
  column_error bad = Some d ->
  parse_columns X (good ++ bad :: rest) = inr d.
Proof.
  induction good as [|a good IH]; intros X bad rest d Hgood Hbad.
  - cbn [app]. now rewrite parse_columns_cons, Hbad.
  - apply Forall_cons in Hgood as [Ha Hgood].
    cbn [app]. rewrite parse_columns_cons, Ha.
    apply column_error_None in Ha as (c & -> & _).
    now apply IH.
Qed.

(** When the loop ends normally every argument was a column number of at
    least 1, and the set holds exactly those numbers. *)
Lemma parse_columns_inl args : forall X columns,
  parse_columns X args = inl columns ->
  Forall (fun a => column_error a = None) args
  /\ forall c, c ∈ columns <-> c ∈ X \/ exists a, a ∈ args /\ strconv.ParseInt a = inl c.
Proof.
  induction args as [|a args IH]; intros X columns H.
  - injection H as <-. split; [constructor|].
    intros c. split; [now left|]. intros [?|(a & Ha & _)]; [assumption|].
    now apply elem_of_nil in Ha.
  - rewrite parse_columns_cons in H.
    destruct (column_error a) as [d|] eqn:Ha; [discriminate|].
    pose proof Ha as Ha'. apply column_error_None in Ha' as (c0 & Hc0 & _).
    rewrite Hc0 in H. apply IH in H as [Hall Hmem].
    split; [now constructor|].
    intros c. rewrite Hmem, elem_of_union, elem_of_singleton. split.
    + intros [[->|?]|(b & Hb & Hc)].
      * right. exists a. split; [left|assumption].
      * now left.
      * right. exists b. split; [now right|assumption].
    + intros [?|(b & Hb & Hc)]; [left; now right|].
      apply elem_of_cons in Hb as [->|Hb].
      * left. left. congruence.
      * right. now exists b.
Qed.

Lemma parse_columns_inr args : forall X d,
  parse_columns X args = inr d -> separator_error d = false.
Proof.
  induction args as [|a args IH]; intros X d H; [discriminate|].
  rewrite parse_columns_cons in H.
  destruct (column_error a) as [d'|] eqn:Ha.
  - injection H as <-. eapply column_error_kind, Ha.
  - apply column_error_None in Ha as (c & Hc & _). rewrite Hc in H. eauto.
Qed.

(** The set is empty exactly when there was no argument. *)
Lemma parse_columns_empty args columns :
  parse_columns ∅ args = inl columns -> (size columns = O <-> args = []).
Proof.
  intros H. apply parse_columns_inl in H as [Hall Hmem].
  rewrite size_empty_iff, elem_of_equiv_empty. split.
  - intros Hempty. destruct args as [|a args]; [reflexivity|].
    apply Forall_cons in Hall as [Ha _].
    apply column_error_None in Ha as (c & Hc & _).
    destruct (Hempty c). apply Hmem. right. exists a. split; [left|assumption].
  - intros -> c Hc. apply Hmem in Hc as [Hc|(a & Ha & _)].
    + now apply elem_of_empty in Hc.
    + now apply elem_of_nil in Ha.
Qed.

(** With valid arguments the loop ends normally. *)
Lemma parse_columns_valid args : forall X,
  Forall (fun a => column_error a = None) args ->
  exists columns, parse_columns X args = inl columns.
Proof.
  induction args as [|a args IH]; intros X Hall; [now eexists|].
  apply Forall_cons in Hall as [Ha Hall].
  rewrite parse_columns_cons, Ha.
  apply column_error_None in Ha as (c & -> & _). now apply IH.
Qed.

Lemma run_parsed_eq args fl positional stdin :
  flag.Parse flag.defaults args = flag.Parsed fl positional ->
  run args stdin = run_parsed fl positional stdin.
Proof. unfold run. now intros ->. Qed.

Lemma run_parsed_no_columns fl stdin : run_parsed fl [] stdin = usage 1 [].
Proof. reflexivity. Qed.

End Columns.

(** ** Validation of the arguments *)

(** C3: when the command line parses and leaves no column argument, the
    process prints the usage text on standard output, exits with status 1
    and never calls the scanner, so that no input is read.  The table of the
    options, which [flag.PrintDefaults] writes, goes to standard error. *)
Theorem no_columns_prints_usage {E : regexp.Engine} args fl stdin :
  flag.Parse flag.defaults args = flag.Parsed fl [] ->
  run args stdin = mkOutcome 1 usage_text [FlagDefaults] O
  /\ status (run args stdin) <> 0
  /\ scans (run args stdin) = O.
Proof.
  intros Hparse. rewrite (run_parsed_eq _ _ _ _ Hparse), run_parsed_no_columns.
  repeat split. discriminate.
Qed.

Lemma no_columns_prints_usage_witness :
  flag.Parse flag.defaults ["-i"] = flag.Parsed (flag.mkFlags "" false true) []
  /\ run (E := regexp.LiteralEngine) ["-i"] (bufio.mkReader "1 2 3" None)
     = mkOutcome 1 usage_text [FlagDefaults] O.
Proof.
  split; [reflexivity|].
  apply (no_columns_prints_usage (E := regexp.LiteralEngine)
           ["-i"] (flag.mkFlags "" false true) (bufio.mkReader "1 2 3" None)).
  reflexivity.
Defined.

(** C4: the first positional argument that does not parse as a base-10
    integer, or parses to a value below 1, ends the run: status 1, the
    message for that argument on standard error, nothing on standard output
    and no input read.  The outcome depends neither on the arguments after
    it nor on the input. *)
Theorem first_bad_column_stops_run {E : regexp.Engine}
    args fl good bad rest d stdin :
  flag.Parse flag.defaults args = flag.Parsed fl (good ++ bad :: rest) ->
  Forall (fun a => column_error a = None) good ->
  column_error bad = Some d ->
  run args stdin = mkOutcome 1 EmptyString [d] O
  /\ (d = match strconv.ParseInt bad with
          | inr e => ErrParseArgument bad e
          | inl c => ErrInvalidColumn c
          end).
Proof.
  intros Hparse Hgood Hbad. split.
  - rewrite (run_parsed_eq _ _ _ _ Hparse). unfold run_parsed.
    now rewrite (parse_columns_first_bad good ∅ bad rest d Hgood Hbad).
  - unfold column_error in Hbad.
    destruct (strconv.ParseInt bad) as [c|e]; [|congruence].
    destruct (c <? 1); congruence.
Qed.

Lemma first_bad_column_stops_run_witness :
  run (E := regexp.LiteralEngine) ["-t"; "2"; "0"; "x"; "3"]
      (bufio.mkReader "a b c" None)
  = mkOutcome 1 EmptyString [ErrInvalidColumn 0] O.
Proof.
  refine (proj1 (first_bad_column_stops_run (E := regexp.LiteralEngine)
            ["-t"; "2"; "0"; "x"; "3"] (flag.mkFlags "" true false)
            ["2"] "0" ["x"; "3"] (ErrInvalidColumn 0)
            (bufio.mkReader "a b c" None) _ _ _)).
  - reflexivity.
  - repeat constructor.
  - reflexivity.
Defined.

(** C5, as amended: with at least one column argument, all of them valid,
    a non-empty [-s] together with [-t] ends the run with the message that
    both cannot be used: status 1, nothing on standard output, no input
    read. *)
Theorem both_separators_fail {E : regexp.Engine} args fl positional stdin :
  flag.Parse flag.defaults args = flag.Parsed fl positional ->
  positional <> [] ->
  Forall (fun a => column_error a = None) positional ->
  flag.separator fl <> EmptyString ->
  flag.useTabSeparator fl = true ->
  run args stdin = mkOutcome 1 EmptyString [ErrBothSeparators] O.
Proof.
  intros Hparse Hne Hvalid Hsep Htab.
  rewrite (run_parsed_eq _ _ _ _ Hparse). unfold run_parsed.
  destruct (parse_columns_valid positional ∅ Hvalid) as [columns Hcols].
  rewrite Hcols. case_bool_decide as Hsize.
  - now apply (parse_columns_empty _ _ Hcols) in Hsize.
  - rewrite Htab. apply String.eqb_neq in Hsep. now rewrite Hsep.
Qed.

Lemma both_separators_fail_witness :
  run (E := regexp.LiteralEngine) ["-s"; ","; "-t"; "1"] (bufio.mkReader "a,b" None)
  = mkOutcome 1 EmptyString [ErrBothSeparators] O.
Proof.
  apply (both_separators_fail (E := regexp.LiteralEngine)
           ["-s"; ","; "-t"; "1"] (flag.mkFlags "," true false) ["1"]).
  - reflexivity.
  - discriminate.
  - repeat constructor.
  - discriminate.
  - reflexivity.
Defined.

(** C5, as stated, fails: with [-s ,] and [-t] but no column argument the
    run takes the usage path, and the message about the two separators is
    not written. *)
Lemma both_separators_without_columns :
  flag.Parse flag.defaults ["-s"; ","; "-t"]
    = flag.Parsed (flag.mkFlags "," true false) []
  /\ run (E := regexp.LiteralEngine) ["-s"; ","; "-t"] (bufio.mkReader "a,b" None)
     = mkOutcome 1 usage_text [FlagDefaults] O
  /\ ErrBothSeparators ∉
       stderr (run (E := regexp.LiteralEngine) ["-s"; ","; "-t"]
                 (bufio.mkReader "a,b" None)).
Proof.
  split; [reflexivity|]. split; [reflexivity|].
  change (ErrBothSeparators ∉ [FlagDefaults]).
  intros H. apply list_elem_of_singleton in H. discriminate.
Qed.

(** C10: the check for an empty set of columns comes before the checks of
    the separator.  Without a column argument the run takes the usage path
    whatever [-s] and [-t] are, and no message about the separator is
    written; a message about the separator (both given, or a pattern that
    does not compile) is only written when there was at least one column
    argument and all of them were valid. *)
Theorem columns_checked_before_separator {E : regexp.Engine}
    args fl positional stdin :
  flag.Parse flag.defaults args = flag.Parsed fl positional ->
  (positional = [] ->
     run args stdin = mkOutcome 1 usage_text [FlagDefaults] O
     /\ Forall (fun d => separator_error d = false) (stderr (run args stdin)))
  /\ (forall d, d ∈ stderr (run args stdin) -> separator_error d = true ->
        positional <> []
        /\ Forall (fun a => column_error a = None) positional).
Proof.
  intros Hparse. rewrite (run_parsed_eq _ _ _ _ Hparse). split.
  - intros ->. rewrite run_parsed_no_columns. split; [reflexivity|].
    repeat constructor.
  - intros d Hin Hsep. unfold run_parsed in Hin.
    destruct (parse_columns ∅ positional) as [columns|d'] eqn:Hcols.
    + case_bool_decide as Hsize.
      * apply list_elem_of_singleton in Hin. subst d. discriminate.
      * split.
        -- intros ->. now apply Hsize, (parse_columns_empty _ _ Hcols).
        -- now apply parse_columns_inl in Hcols.
    + apply list_elem_of_singleton in Hin. subst d'.
      apply parse_columns_inr in Hcols. congruence.
Qed.

Lemma columns_checked_before_separator_witness :
  run (E := regexp.LiteralEngine) ["-s"; "["; "-t"] (bufio.mkReader "a b" None)
  = mkOutcome 1 usage_text [FlagDefaults] O.
Proof.
  refine (proj1 (proj1 (columns_checked_before_separator
            (E := regexp.LiteralEngine) ["-s"; "["; "-t"]
            (flag.mkFlags "[" true false) [] (bufio.mkReader "a b" None) _) _)).
  - reflexivity.
  - reflexivity.
Defined.

(** ** The scanning loop *)

Section Scanning.

Context {E : regexp.Engine}.

(** A run that calls the scanner passed all the checks before it. *)
Lemma run_scans args stdin :
  scans (run args stdin) <> O ->
  exists fl positional columns separatorRegex,
    flag.Parse flag.defaults args = flag.Parsed fl positional
    /\ parse_columns ∅ positional = inl columns
    /\ compile_separator (effective_separator fl) = inl separatorRegex
    /\ run args stdin
       = scan_and_split columns separatorRegex (flag.ignoreHeaderRow fl) stdin.
Proof.
  unfold run.
  destruct (flag.Parse flag.defaults args) as [fl positional|e].
  - unfold run_parsed.
    destruct (parse_columns ∅ positional) as [columns|d] eqn:Hcols;
      [|now intros []].
    case_bool_decide; [now intros []|].
    destruct (negb _ && _); [now intros []|].
    destruct (compile_separator _) as [re|e] eqn:Hre; [|now intros []].
    intros _. now exists fl, positional, columns, re.
  - destruct e; now intros [].
Qed.

Lemma scan_and_split_stdout columns re ignoreHeaderRow stdin :
  stdout (scan_and_split columns re ignoreHeaderRow stdin)
  = output_of columns re (processed ignoreHeaderRow (bufio.scan stdin).1).
Proof.
  unfold scan_and_split. destruct (bufio.scan stdin) as [lines [e|]];
    cbn [stdout fst]; now rewrite scan_loop_spec.
Qed.

Lemma selected_from_sublist columns fields : forall i,
  sublist (selected_from columns i fields) fields.
Proof.
  induction fields as [|f rest IH]; intros i.
  - constructor.
  - rewrite selected_from_cons. case_bool_decide.
    + apply sublist_skip, IH.
    + apply sublist_cons, IH.
Qed.

Lemma selected_from_lookup columns fields : forall i f,
  f ∈ selected_from columns i fields
  <-> exists k, fields !! k = Some f /\ Z.of_nat (i + k) + 1 ∈ columns.
Proof.
  induction fields as [|g rest IH]; intros i f.
  - split; [intros H; now apply elem_of_nil in H | now intros (k & H & _)].
  - rewrite selected_from_cons. split.
    + case_bool_decide as Hin.
      * intros [->|H]%elem_of_cons.
        -- exists O. split; [reflexivity|]. now rewrite Nat.add_0_r.
        -- apply IH in H as (k & Hk & Hc). exists (S k). split; [exact Hk|].
           now replace (i + S k)%nat with (S i + k)%nat by lia.
      * intros H. apply IH in H as (k & Hk & Hc). exists (S k).
        split; [exact Hk|].
        now replace (i + S k)%nat with (S i + k)%nat by lia.
    + intros ([|k] & Hk & Hc).
      * injection Hk as ->. rewrite Nat.add_0_r in Hc.
        rewrite bool_decide_eq_true_2 by exact Hc. left.
      * assert (f ∈ selected_from columns (S i) rest) as H.
        { apply IH. exists k. split; [exact Hk|].
          now replace (S i + k)%nat with (i + S k)%nat by lia. }
        case_bool_decide; [now right | exact H].
Qed.

End Scanning.

(** C1: in a run that reaches the scanner, standard output is the
    concatenation, over the lines processed (all lines, or all but the first
    with [-i]), of one output line each: the fields whose 1-based position
    is a requested column, in the order of the line, joined by single tabs
    and followed by one newline.  The columns are those the positional
    arguments name, and the fields of a line are those of the split the
    flags ask for: [strings.Fields], or [Split] of the pattern compiled
    from the separator in force.  The fields printed are as many as the
    requested columns that exist in the line, so a column beyond the last
    field adds nothing, and a line with none of the requested columns gives
    the empty line. *)
Theorem selected_fields_printed {E : regexp.Engine} args stdin :
  scans (run args stdin) <> O ->
  exists fl positional columns separatorRegex,
    flag.Parse flag.defaults args = flag.Parsed fl positional
    /\ parse_columns ∅ positional = inl columns
    /\ compile_separator (effective_separator fl) = inl separatorRegex
    /\ (forall c, c ∈ columns
          <-> exists a, a ∈ positional /\ strconv.ParseInt a = inl c)
    /\ stdout (run args stdin)
       = String.concat EmptyString
           (map (fun text =>
                   String.concat tb
                     (selected columns (split_line separatorRegex text)) +:+ nl)
                (processed (flag.ignoreHeaderRow fl) (bufio.scan stdin).1))
    /\ forall fields,
         (forall f, f ∈ selected columns fields
            <-> exists k, fields !! k = Some f /\ Z.of_nat k + 1 ∈ columns)
         /\ sublist (selected columns fields) fields
         /\ length (selected columns fields)
            = size (filter (fun c => 1 <= c <= Z.of_nat (length fields)) columns)
         /\ ((forall c, c ∈ columns -> Z.of_nat (length fields) < c) ->
             String.concat tb (selected columns fields) +:+ nl = nl).
Proof.
  intros Hscans.
  destruct (run_scans args stdin Hscans)
    as (fl & positional & columns & re & Hparse & Hcols & Hre & Hrun).
  exists fl, positional, columns, re.
  split; [exact Hparse|]. split; [exact Hcols|]. split; [exact Hre|].
  split; [|split].
  - apply parse_columns_inl in Hcols as [_ Hmem]. intros c. rewrite Hmem.
    split; [intros [H|H]; [now apply elem_of_empty in H | exact H] | now right].
  - rewrite Hrun. apply scan_and_split_stdout.
  - intros fields. split; [|split; [|split]].
    + intros f. apply (selected_from_lookup columns fields O f).
    + apply selected_from_sublist.
    + apply selected_length.
    + intros Hbeyond.
      assert (length (selected columns fields) = O) as Hlen.
      { rewrite selected_length. apply size_empty_iff, elem_of_equiv_empty.
        unfold present. intros c [Hc Hin]%elem_of_filter.
        specialize (Hbeyond c Hin). lia. }
      destruct (selected columns fields); [reflexivity | discriminate].
Qed.

Lemma selected_fields_printed_witness :
  scans (run (E := regexp.LiteralEngine) ["-s"; ","; "1"; "3"]
           (bufio.mkReader ("a,b,c d" +:+ nl +:+ "e,f" +:+ nl +:+ nl) None)) <> O
  /\ exists fl positional columns separatorRegex,
       flag.Parse flag.defaults ["-s"; ","; "1"; "3"] = flag.Parsed fl positional
       /\ parse_columns ∅ positional = inl columns
       /\ compile_separator (E := regexp.LiteralEngine) (effective_separator fl)
          = inl separatorRegex
       /\ stdout (run (E := regexp.LiteralEngine) ["-s"; ","; "1"; "3"]
                    (bufio.mkReader ("a,b,c d" +:+ nl +:+ "e,f" +:+ nl +:+ nl) None))
          = String.concat EmptyString
              (map (fun text =>
                      String.concat tb
                        (selected columns
                           (split_line (E := regexp.LiteralEngine) separatorRegex text))
                      +:+ nl)
                   (processed (flag.ignoreHeaderRow fl) ["a,b,c d"; "e,f"; ""])).
Proof.
  assert (scans (run (E := regexp.LiteralEngine) ["-s"; ","; "1"; "3"]
            (bufio.mkReader ("a,b,c d" +:+ nl +:+ "e,f" +:+ nl +:+ nl) None)) <> O)
    as Hscans by (vm_compute; discriminate).
  split; [exact Hscans|].
  destruct (selected_fields_printed (E := regexp.LiteralEngine) _ _ Hscans)
    as (fl & positional & columns & re & Hparse & Hcols & Hre & _ & Hout & _).
  exists fl, positional, columns, re.
  split; [exact Hparse|]. split; [exact Hcols|]. split; [exact Hre | exact Hout].
Defined.

(** On that input the separator decides the fields: split at the comma, the
    first line has the fields [a], [b] and [c d]. *)
Example run_separator_1_3 :
  stdout (run (E := regexp.LiteralEngine) ["-s"; ","; "1"; "3"]
            (bufio.mkReader ("a,b,c d" +:+ nl +:+ "e,f" +:+ nl +:+ nl) None))
  = "a" +:+ tb +:+ "c d" +:+ nl +:+ "e" +:+ nl +:+ nl.
Proof. vm_compute. reflexivity. Qed.

Example run_columns_1_3 :
  stdout (run (E := regexp.LiteralEngine) ["1"; "3"]
            (bufio.mkReader ("a b" +:+ nl +:+ "c d e" +:+ nl +:+ nl) None))
  = "a" +:+ nl +:+ "c" +:+ tb +:+ "e" +:+ nl +:+ nl.
Proof. vm_compute. reflexivity. Qed.

(** C8: with the header row ignored the first line read is dropped without
    being split or printed, whatever it contains, and every line after it is
    processed as it would be without [-i]; without [-i] every line is
    processed.  On the input of the example, [-i 2] prints the second field
    of the second line only. *)
Theorem header_row_skipped {E : regexp.Engine} :
  (forall columns separatorRegex first rest out,
     scan_loop columns separatorRegex true true (first :: rest) out
     = scan_loop columns separatorRegex false true rest out)
  /\ (forall columns separatorRegex first other rest out,
        scan_loop columns separatorRegex true true (first :: rest) out
        = scan_loop columns separatorRegex true true (other :: rest) out)
  /\ (forall columns separatorRegex lines out,
        scan_loop columns separatorRegex false true lines out
        = fold_left (fun o text => print_line columns separatorRegex text o) lines out)
  /\ (forall columns separatorRegex out,
        scan_loop columns separatorRegex true true [] out = out)
  /\ run ["-i"; "2"] (bufio.mkReader ("name age" +:+ nl +:+ "bob 30" +:+ nl) None)
     = mkOutcome 0 ("30" +:+ nl) [] 3.
Proof.
  split; [|split; [|split; [|split]]].
  - intros. cbn [scan_loop andb]. now rewrite !scan_loop_all.
  - intros. reflexivity.
  - intros columns re lines. induction lines as [|text rest IH]; intros out.
    + reflexivity.
    + cbn [scan_loop fold_left andb]. apply IH.
  - reflexivity.
  - vm_compute. reflexivity.
Qed.

(** C9: the bytes printed for a line are the bytes of the selected fields
    themselves, with tabs between them: every token written is a field of
    the line, unchanged, whatever bytes it holds.  A field such as [%s] or
    [%d] is printed as it is. *)
Theorem fields_written_verbatim {E : regexp.Engine} :
  (forall columns fields out,
     print_fields columns O fields false out
     = out +:+ String.concat tb (selected columns fields)
     /\ Forall (fun f => f ∈ fields) (selected columns fields))
  /\ (forall f out, print_fields {[ 1 ]} O [f] false out = out +:+ f)
  /\ run ["1"; "2"; "3"] (bufio.mkReader ("100% %s %d%%" +:+ nl) None)
     = mkOutcome 0 ("100%" +:+ tb +:+ "%s" +:+ tb +:+ "%d%%" +:+ nl) [] 2.
Proof.
  split; [|split].
  - intros columns fields out. split.
    + rewrite print_fields_spec. fold (selected columns fields).
      destruct (selected columns fields); cbn [lead_tab]; now autorewrite with bytes.
    + apply Forall_forall. intros f Hf.
      apply (selected_from_lookup columns fields O f) in Hf as (k & Hk & _).
      eapply list_elem_of_lookup_2, Hk.
  - intros f out. cbn [print_fields].
    rewrite bool_decide_eq_true_2 by (apply elem_of_singleton; reflexivity).
    reflexivity.
  - vm_compute. reflexivity.
Qed.

(** The earlier revision writes each selected field through the formatter:
    it prints the fields unchanged only where the formatter leaves them
    unchanged. *)
Lemma print_fields_legacy_spec (Fprintf0 : string -> string) columns fields :
  forall i printed out,
    print_fields_legacy Fprintf0 columns i fields printed out
    = out +:+ (match selected_from columns i fields with
               | [] => EmptyString
               | _ :: _ => if printed then Fprintf0 tb else EmptyString
               end)
          +:+ String.concat (Fprintf0 tb) (map Fprintf0 (selected_from columns i fields)).
Proof.
  induction fields as [|f rest IH]; intros i printed out.
  - cbn. now autorewrite with bytes.
  - cbn [print_fields_legacy]. rewrite selected_from_cons.
    case_bool_decide as Hin; rewrite IH; [|reflexivity].
    destruct (selected_from columns (S i) rest) as [|g sel] eqn:Hsel.
    + destruct printed; cbn [String.concat map]; now autorewrite with bytes.
    + cbn [map]. rewrite BytesFacts.concat_cons2.
      destruct printed; now autorewrite with bytes.
Qed.

(** ** Flags after the first column *)

Module ParseIntFacts.

Import strconv.

Lemma digit_val_nonneg c d : digit_val c = Some d -> 0 <= d.
Proof.
  unfold digit_val. pose proof (BytesFacts.code_range c).
  repeat match goal with
         | |- context [if ?b then _ else _] => destruct b eqn:?
         end; intros [= <-]; lia.
Qed.

Lemma parse_digits_range s : forall n u,
  0 <= n <= maxUint64 -> parse_digits n s = inl u -> 0 <= u <= maxUint64.
Proof.
  induction s as [|c s IH]; intros n u Hn H; cbn [parse_digits] in H.
  - now injection H as <-.
  - destruct (digit_val c) as [d|] eqn:Hd; [|discriminate].
    apply digit_val_nonneg in Hd.
    destruct (10 <=? d); [discriminate|].
    destruct (maxUint64 / 10 + 1 <=? n); [discriminate|].
    destruct (Z.ltb_spec maxUint64 (n * 10 + d)); [discriminate|].
    eapply IH; [|exact H]. lia.
Qed.

Lemma ParseUint_range s u : ParseUint s = inl u -> 0 <= u <= maxUint64.
Proof.
  unfold ParseUint. destruct s; [discriminate|].
  apply parse_digits_range. unfold maxUint64. lia.
Qed.

(** An argument with a minus sign never names a column. *)
Lemma ParseInt_minus s c :
  ParseInt (String "-" s) = inl c -> c <= 0.
Proof.
  unfold ParseInt. cbn [Ascii.eqb Bool.eqb orb negb andb].
  destruct (ParseUint s) as [u|[]] eqn:Hu; [|discriminate|].
  - apply ParseUint_range in Hu.
    destruct (Z.ltb_spec (2 ^ 63) u); [discriminate|].
    intros [= <-]. unfold int64, maxUint64 in *.
    destruct (Z.eq_dec u (2 ^ 63)) as [->|Hne].
    + vm_compute. discriminate.
    + rewrite (Z.mod_small (u + 2 ^ 63)) by lia.
      replace (- (u + 2 ^ 63 - 2 ^ 63) + 2 ^ 63) with (2 ^ 63 - u) by lia.
      rewrite Z.mod_small by lia. lia.
  - unfold maxUint64. vm_compute. discriminate.
Qed.

End ParseIntFacts.

(** A valid column argument is not a flag: [flag.Parse] stops there, and
    everything after it is a positional argument. *)
Lemma flags_end_at_first_column fl arg rest :
  column_error arg = None ->
  flag.Parse fl (arg :: rest) = flag.Parsed fl (arg :: rest).
Proof.
  intros Hvalid. apply column_error_None in Hvalid as (c & Hc & Hpos).
  destruct arg as [|c0 [|c1 s2]]; try reflexivity.
  cbn [flag.Parse]. destruct (Ascii.eqb_spec c0 "-") as [->|Hne]; [|reflexivity].
  apply ParseIntFacts.ParseInt_minus in Hc. lia.
Qed.

(** C2: what the code does with a flag after a column.  [flag.Parse] stops
    at the first argument that is not a flag, so in [cl 1 -i] the token [-i]
    reaches the column loop, where it does not parse: the run ends with
    status 1 and reads nothing, while [cl -i 1] runs and skips the header
    row. *)
Theorem flag_after_column_is_rejected {E : regexp.Engine} stdin :
  run ["1"; "-i"] stdin
    = mkOutcome 1 EmptyString [ErrParseArgument "-i" strconv.ErrSyntax] O
  /\ run ["-i"; "1"] (bufio.mkReader ("name age" +:+ nl +:+ "bob 30" +:+ nl) None)
     = mkOutcome 0 ("bob" +:+ nl) [] 3
  /\ run ["1"; "-i"] (bufio.mkReader ("name age" +:+ nl +:+ "bob 30" +:+ nl) None)
     <> run ["-i"; "1"] (bufio.mkReader ("name age" +:+ nl +:+ "bob 30" +:+ nl) None).
Proof.
  split; [reflexivity|]. split; [vm_compute; reflexivity|].
  vm_compute. discriminate.
Qed.

(** ** The default split: strings.Fields *)

Module FieldsFacts.

Import utf8 strings.

(** Decoding takes a non-empty group of bytes off the front. *)
Lemma runes_step b0 t1 :
  exists r enc rest,
    enc <> EmptyString
    /\ String b0 t1 = enc +:+ rest
    /\ runes (String b0 t1) = (r, enc) :: runes rest
    /\ (String.length rest <= String.length t1)%nat.
Proof.
  cbn [runes].
  destruct (first (Bytes.code b0)) as [r|sz lo hi].
  { exists r, (String b0 EmptyString), t1. repeat split; [discriminate|lia]. }
  destruct t1 as [|b1 t2].
  { exists RuneError, (String b0 EmptyString), EmptyString.
    repeat split; [discriminate|lia]. }
  destruct (_ || _).
  { exists RuneError, (String b0 EmptyString), (String b1 t2).
    repeat split; [discriminate|lia]. }
  destruct (sz <=? 2)%nat.
  { eexists _, (String b0 (String b1 EmptyString)), t2.
    repeat split; [discriminate|cbn; lia]. }
  destruct t2 as [|b2 t3].
  { exists RuneError, (String b0 EmptyString), (String b1 EmptyString).
    repeat split; [discriminate|lia]. }
  destruct (not_cont b2).
  { exists RuneError, (String b0 EmptyString), (String b1 (String b2 t3)).
    repeat split; [discriminate|lia]. }
  destruct (sz <=? 3)%nat.
  { eexists _, (String b0 (String b1 (String b2 EmptyString))), t3.
    repeat split; [discriminate|cbn; lia]. }
  destruct t3 as [|b3 t4].
  { exists RuneError, (String b0 EmptyString), (String b1 (String b2 EmptyString)).
    repeat split; [discriminate|lia]. }
  destruct (not_cont b3).
  { exists RuneError, (String b0 EmptyString), (String b1 (String b2 (String b3 t4))).
    repeat split; [discriminate|lia]. }
  eexists _, (String b0 (String b1 (String b2 (String b3 EmptyString)))), t4.
  repeat split; [discriminate|cbn; lia].
Qed.

(** Induction over a string by the groups of bytes decoding takes off. *)
Lemma runes_ind (P : string -> Prop) :
  P EmptyString ->
  (forall r enc rest,
      enc <> EmptyString ->
      runes (enc +:+ rest) = (r, enc) :: runes rest ->
      P rest -> P (enc +:+ rest)) ->
  forall s, P s.
Proof.
  intros Hnil Hstep s.
  remember (String.length s) as n eqn:Hn.
  revert s Hn. induction n as [n IH] using lt_wf_ind. intros s ->.
  destruct s as [|b0 t1]; [exact Hnil|].
  destruct (runes_step b0 t1) as (r & enc & rest & Henc & Hs & Hrunes & Hlen).
  rewrite Hs in *. apply (Hstep r); [exact Henc | exact Hrunes |].
  apply (IH (String.length rest)); [|reflexivity].
  rewrite <- Hs. cbn [String.length]. lia.
Qed.

Lemma runes_nonempty s : Forall (fun p => p.2 <> EmptyString) (runes s).
Proof.
  induction s as [|r enc rest Henc Hrunes IH] using runes_ind.
  - constructor.
  - rewrite Hrunes. now constructor.
Qed.

(** Decoding loses no byte. *)
Lemma runes_bytes s : bytes_of (runes s) = s.
Proof.
  induction s as [|r enc rest Henc Hrunes IH] using runes_ind.
  - reflexivity.
  - rewrite Hrunes. cbn [bytes_of foldr snd]. fold (bytes_of (runes rest)).
    now rewrite IH.
Qed.

(** *** The loop of FieldsFunc against the words of the specification *)

Lemma tokens_between_cons f rs :
  exists t ts, tokens_between f rs = t :: ts.
Proof.
  destruct rs as [|p rs]; cbn [tokens_between]; [now eexists _, _|].
  destruct (f p.1); [now eexists _, _|].
  destruct (tokens_between f rs); now eexists _, _.
Qed.

Lemma bytes_of_cons p t : bytes_of (p :: t) = p.2 +:+ bytes_of t.
Proof. reflexivity. Qed.

Lemma bytes_of_nonempty t :
  Forall (fun p => p.2 <> EmptyString) t -> t <> [] -> bytes_of t <> EmptyString.
Proof.
  intros Hall Hne. destruct t as [|p t]; [contradiction|].
  apply Forall_cons in Hall as [Hp _]. rewrite bytes_of_cons.
  intros [H _]%BytesFacts.append_eq_empty. contradiction.
Qed.

Lemma filter_nonempty_cons (t : list (Z * string)) ts :
  t <> [] -> filter (fun t => t <> []) (t :: ts) = t :: filter (fun t => t <> []) ts.
Proof. intros H. now rewrite filter_cons_True. Qed.

Lemma fields_of_words f rs :
  Forall (fun p => p.2 <> EmptyString) rs ->
  fields_of f None rs = map bytes_of (words f rs)
  /\ forall w t ts, tokens_between f rs = t :: ts ->
       fields_of f (Some w) rs
       = (w +:+ bytes_of t) :: map bytes_of (filter (fun t => t <> []) ts).
Proof.
  unfold words. induction rs as [|[r enc] rs IH]; intros Hall.
  - split; [reflexivity|]. intros w t ts [= <- <-]. cbn.
    now rewrite BytesFacts.append_empty_r.
  - apply Forall_cons in Hall as [Henc Hall]. cbn [snd] in Henc.
    destruct (IH Hall) as [IHnone IHsome]. clear IH.
    cbn [fields_of tokens_between fst].
    destruct (tokens_between_cons f rs) as (t0 & ts0 & Htok).
    destruct (f r) eqn:Hr.
    + split.
      * rewrite filter_cons_False by (intros H; now apply H). exact IHnone.
      * intros w t ts [= <- <-]. rewrite IHnone. cbn [bytes_of foldr].
        now rewrite BytesFacts.append_empty_r.
    + rewrite Htok. split.
      * rewrite filter_nonempty_cons by discriminate. cbn [map].
        rewrite (IHsome enc t0 ts0 Htok). reflexivity.
      * intros w t ts [= <- <-].
        rewrite (IHsome (w +:+ enc) t0 ts0 Htok), bytes_of_cons.
        cbn [snd]. now rewrite BytesFacts.append_assoc.
Qed.

Lemma Fields_words s :
  Fields s = map bytes_of (words unicode.IsSpace (runes s)).
Proof. apply fields_of_words, runes_nonempty. Qed.

(** No token holds a separator. *)
Lemma tokens_between_clean f rs :
  Forall (Forall (fun p => f p.1 = false)) (tokens_between f rs).
Proof.
  induction rs as [|p rs IH]; cbn [tokens_between].
  - repeat constructor.
  - destruct (f p.1) eqn:Hp; [now repeat constructor|].
    destruct (tokens_between f rs) as [|t ts]; [now repeat constructor|].
    apply Forall_cons in IH as [Ht Hts]. now repeat constructor.
Qed.

Lemma words_clean f rs t :
  t ∈ words f rs -> t <> [] /\ Forall (fun p => f p.1 = false) t.
Proof.
  unfold words. intros [Hne Hin]%list_elem_of_filter. split; [exact Hne|].
  pose proof (tokens_between_clean f rs) as Hall.
  rewrite Forall_forall in Hall. now apply Hall.
Qed.

(** The tokens are all the runes but the separators: no rune is lost. *)
Lemma tokens_between_all f rs :
  concat (tokens_between f rs) = filter (fun p => f p.1 = false) rs.
Proof.
  induction rs as [|p rs IH]; cbn [tokens_between]; [reflexivity|].
  destruct (f p.1) eqn:Hp.
  - rewrite filter_cons_False by (rewrite Hp; discriminate). exact IH.
  - rewrite filter_cons_True by exact Hp.
    destruct (tokens_between f rs) as [|t ts]; cbn in *; now rewrite <- IH.
Qed.

Lemma Fields_nonempty s : Forall (fun w => w <> EmptyString) (Fields s).
Proof.
  rewrite Fields_words. apply Forall_forall. intros w Hw.
  apply list_elem_of_fmap in Hw as (t & -> & Ht).
  pose proof Ht as [Hne _]%words_clean.
  apply bytes_of_nonempty; [|exact Hne].
  unfold words in Ht. apply list_elem_of_filter in Ht as [_ Ht].
  (* the runes of a token are runes of the string *)
  apply Forall_forall. intros p Hp.
  assert (p ∈ concat (tokens_between unicode.IsSpace (runes s))) as Hin.
  { apply list_elem_of_In, in_concat. exists t.
    split; now apply list_elem_of_In. }
  rewrite tokens_between_all in Hin. apply list_elem_of_filter in Hin as [_ Hin].
  pose proof (runes_nonempty s) as Hall. rewrite Forall_forall in Hall.
  now apply Hall.
Qed.

(** *** White space at the ends of a line *)

Lemma words_spaces_l f ws rs :
  Forall (fun p => f p.1 = true) ws -> words f (ws ++ rs) = words f rs.
Proof.
  unfold words. induction 1 as [|p ws Hp _ IH]; [reflexivity|].
  cbn [app tokens_between]. rewrite Hp.
  now rewrite filter_cons_False by (intros H; now apply H).
Qed.

Lemma tokens_between_spaces_r f ws rs :
  Forall (fun p => f p.1 = true) ws ->
  tokens_between f (rs ++ ws) = tokens_between f rs ++ replicate (length ws) [].
Proof.
  intros Hws. induction rs as [|p rs IH]; cbn [app tokens_between].
  - induction Hws as [|q ws Hq _ IHws]; [reflexivity|].
    cbn [tokens_between length replicate]. rewrite Hq, IHws. reflexivity.
  - rewrite IH. destruct (f p.1); [reflexivity|].
    destruct (tokens_between_cons f rs) as (t & ts & ->). reflexivity.
Qed.

Lemma words_spaces_r f ws rs :
  Forall (fun p => f p.1 = true) ws -> words f (rs ++ ws) = words f rs.
Proof.
  intros Hws. unfold words.
  rewrite (tokens_between_spaces_r f ws rs Hws), filter_app.
  replace (filter _ (replicate (length ws) [])) with (@nil (list (Z * string))).
  - apply app_nil_r.
  - induction (length ws) as [|n IH]; [reflexivity|].
    cbn [replicate]. now rewrite filter_cons_False by (intros H; now apply H).
Qed.

Lemma runes_unfold b0 t1 :
  runes (String b0 t1)
  = match first (Bytes.code b0) with
    | One r => (r, String b0 EmptyString) :: runes t1
    | Multi sz lo hi =>
        match t1 with
        | EmptyString => (RuneError, String b0 EmptyString) :: runes t1
        | String b1 t2 =>
            if (Bytes.code b1 <? lo) || (hi <? Bytes.code b1)
            then (RuneError, String b0 EmptyString) :: runes t1
            else if (sz <=? 2)%nat then
              (Z.lor (Z.shiftl (low 5 b0) 6) (low 6 b1),
               String b0 (String b1 EmptyString)) :: runes t2
            else
              match t2 with
              | EmptyString => (RuneError, String b0 EmptyString) :: runes t1
              | String b2 t3 =>
                  if not_cont b2
                  then (RuneError, String b0 EmptyString) :: runes t1
                  else if (sz <=? 3)%nat then
                    (Z.lor (Z.shiftl (low 4 b0) 12)
                       (Z.lor (Z.shiftl (low 6 b1) 6) (low 6 b2)),
                     String b0 (String b1 (String b2 EmptyString))) :: runes t3
                  else
                    match t3 with
                    | EmptyString => (RuneError, String b0 EmptyString) :: runes t1
                    | String b3 t4 =>
                        if not_cont b3
                        then (RuneError, String b0 EmptyString) :: runes t1
                        else
                          (Z.lor (Z.shiftl (low 3 b0) 18)
                             (Z.lor (Z.shiftl (low 6 b1) 12)
                                (Z.lor (Z.shiftl (low 6 b2) 6) (low 6 b3))),
                           String b0 (String b1 (String b2 (String b3 EmptyString))))
                          :: runes t4
                    end
              end
        end
    end.
Proof.
  destruct t1 as [|b1 [|b2 [|b3 t4]]]; reflexivity.
Qed.

Lemma first_ascii x : x < 0x80 -> first x = One x.
Proof. intros H. unfold first. now destruct (Z.ltb_spec x 0x80); [|lia]. Qed.

(** The second byte of an encoding is never an ASCII byte. *)
Lemma first_lo x sz lo hi : first x = Multi sz lo hi -> 0x80 <= lo.
Proof.
  unfold first.
  repeat match goal with
         | |- context [if ?b then _ else _] => destruct b
         end; intros [= <- <- <-] || discriminate; lia.
Qed.

Lemma runes_ascii_cons a w :
  Bytes.code a < 0x80 ->
  runes (String a w) = (Bytes.code a, String a EmptyString) :: runes w.
Proof. intros H. now rewrite runes_unfold, first_ascii. Qed.

(** Appending a string with an ASCII head does not change how the bytes
    before it are decoded. *)
Lemma runes_app_ascii t :
  ascii_head t ->
  forall n s, (String.length s <= n)%nat -> runes (s +:+ t) = runes s ++ runes t.
Proof.
  intros Ht. induction n as [|n IH]; intros s Hlen.
  { destruct s; [reflexivity | cbn in Hlen; lia]. }
  destruct s as [|b0 t1]; [reflexivity|]. cbn [String.length] in Hlen.
  assert (runes (t1 +:+ t) = runes t1 ++ runes t) as H1 by (apply IH; lia).
  rewrite BytesFacts.append_cons, (runes_unfold b0 (t1 +:+ t)), (runes_unfold b0 t1).
  destruct (first (Bytes.code b0)) as [r|sz lo hi] eqn:Hfirst.
  { cbn [app]; f_equal; exact H1. }
  apply first_lo in Hfirst.
  assert (forall a, Bytes.code a < 0x80 ->
            (Bytes.code a <? lo) || (hi <? Bytes.code a) = true) as Hrange.
  { intros a Ha. apply orb_true_iff. left. apply Z.ltb_lt. lia. }
  assert (forall a, Bytes.code a < 0x80 -> not_cont a = true) as Hcont.
  { intros a Ha. unfold not_cont. apply orb_true_iff. left. now apply Z.ltb_lt. }
  destruct t1 as [|b1 t2].
  { rewrite BytesFacts.append_nil_l in *. destruct t as [|a w]; [reflexivity|].
    now rewrite (Hrange a Ht). }
  cbn [String.length] in Hlen.
  assert (runes (t2 +:+ t) = runes t2 ++ runes t) as H2 by (apply IH; lia).
  rewrite BytesFacts.append_cons in *. cbv beta iota.
  destruct (_ || _); [cbn [app]; f_equal; exact H1|].
  destruct (sz <=? 2)%nat; [cbn [app]; f_equal; exact H2|].
  destruct t2 as [|b2 t3].
  { rewrite BytesFacts.append_nil_l in *. destruct t as [|a w].
    - cbn [app]; f_equal; exact H1.
    - rewrite (Hcont a Ht). cbn [app]; f_equal; exact H1. }
  cbn [String.length] in Hlen.
  assert (runes (t3 +:+ t) = runes t3 ++ runes t) as H3 by (apply IH; lia).
  rewrite BytesFacts.append_cons in *. cbv beta iota.
  destruct (not_cont b2); [cbn [app]; f_equal; exact H1|].
  destruct (sz <=? 3)%nat; [cbn [app]; f_equal; exact H3|].
  destruct t3 as [|b3 t4].
  { rewrite BytesFacts.append_nil_l in *. destruct t as [|a w].
    - cbn [app]; f_equal; exact H1.
    - rewrite (Hcont a Ht). cbn [app]; f_equal; exact H1. }
  cbn [String.length] in Hlen.
  assert (runes (t4 +:+ t) = runes t4 ++ runes t) as H4 by (apply IH; lia).
  rewrite BytesFacts.append_cons in *. cbv beta iota.
  destruct (not_cont b3); cbn [app]; [f_equal; exact H1 | f_equal; exact H4].
Qed.

Lemma ascii_space_code a : ascii_space a = true ->
  Bytes.code a < 0x80 /\ unicode.IsSpace (Bytes.code a) = true.
Proof.
  unfold ascii_space, unicode.IsSpace. cbn [existsb].
  rewrite !orb_true_iff, !Z.eqb_eq.
  intros H. assert (Bytes.code a < 0x80) as Hlt by lia.
  split; [exact Hlt|].
  destruct (Z.leb_spec (Bytes.code a) 0xFF); [|lia].
  rewrite !orb_true_iff, !Z.eqb_eq. tauto.
Qed.

Lemma runes_spaces ws :
  all_bytes ascii_space ws = true ->
  Forall (fun p => unicode.IsSpace p.1 = true) (runes ws)
  /\ forall s, runes (ws +:+ s) = runes ws ++ runes s.
Proof.
  induction ws as [|a ws IH]; cbn [all_bytes].
  - intros _. split; [constructor | reflexivity].
  - intros [Ha Hws]%andb_true_iff. apply ascii_space_code in Ha as [Hlt Hsp].
    destruct (IH Hws) as [IH1 IH2]. rewrite runes_ascii_cons by exact Hlt.
    split; [now constructor|].
    intros s. rewrite BytesFacts.append_cons, runes_ascii_cons by exact Hlt.
    cbn [app]. now rewrite IH2.
Qed.

Lemma spaces_ascii_head ws : all_bytes ascii_space ws = true -> ascii_head ws.
Proof.
  destruct ws as [|a ws]; cbn [all_bytes ascii_head]; [easy|].
  intros [Ha _]%andb_true_iff. now apply ascii_space_code in Ha.
Qed.

(** White space before and after a line does not change its fields. *)
Lemma Fields_trim ws1 s ws2 :
  all_bytes ascii_space ws1 = true ->
  all_bytes ascii_space ws2 = true ->
  Fields (ws1 +:+ s +:+ ws2) = Fields s.
Proof.
  intros H1 H2. rewrite !Fields_words.
  destruct (runes_spaces ws1 H1) as [Hsp1 Happ1].
  destruct (runes_spaces ws2 H2) as [Hsp2 _].
  rewrite Happ1, words_spaces_l by exact Hsp1.
  rewrite (runes_app_ascii ws2 (spaces_ascii_head ws2 H2) (String.length s) s)
    by reflexivity.
  now rewrite words_spaces_r.
Qed.

End FieldsFacts.

(** A run that reaches the scanner prints the output lines of the lines
    processed, split as the separator in force says. *)
Lemma run_stdout {E : regexp.Engine} args fl positional stdin :
  flag.Parse flag.defaults args = flag.Parsed fl positional ->
  scans (run args stdin) <> O ->
  exists columns separatorRegex,
    parse_columns ∅ positional = inl columns
    /\ compile_separator (effective_separator fl) = inl separatorRegex
    /\ stdout (run args stdin)
       = output_of columns separatorRegex
           (processed (flag.ignoreHeaderRow fl) (bufio.scan stdin).1).
Proof.
  intros Hparse Hscans.
  destruct (run_scans args stdin Hscans)
    as (fl' & positional' & columns & re & Hparse' & Hcols & Hre & Hrun).
  rewrite Hparse in Hparse'. injection Hparse' as <- <-.
  exists columns, re. split; [exact Hcols|]. split; [exact Hre|].
  rewrite Hrun. apply scan_and_split_stdout.
Qed.

(** C6: with neither [-s] nor [-t] (an empty separator) no pattern is
    compiled and every line is split by [strings.Fields]: the fields are the
    words of the line, that is the tokens between white space runes that are
    not empty.  No field is empty, no field holds a white space rune, white
    space before and after the line changes nothing, and on the line of
    the example the columns 1, 2 and 3 give [a], [b] and [c] joined by
    tabs. *)
Theorem default_split_is_whitespace_words {E : regexp.Engine} :
  (forall args fl positional stdin,
     flag.Parse flag.defaults args = flag.Parsed fl positional ->
     flag.separator fl = EmptyString -> flag.useTabSeparator fl = false ->
     scans (run args stdin) <> O ->
     exists columns,
       parse_columns ∅ positional = inl columns
       /\ stdout (run args stdin)
          = String.concat EmptyString
              (map (fun text => output_line columns (strings.Fields text))
                 (processed (flag.ignoreHeaderRow fl) (bufio.scan stdin).1)))
  /\ (forall text, split_line None text = strings.Fields text)
  /\ (forall text,
        strings.Fields text
        = map bytes_of (words unicode.IsSpace (utf8.runes text)))
  /\ (forall text, Forall (fun w => w <> EmptyString) (strings.Fields text))
  /\ (forall text t, t ∈ words unicode.IsSpace (utf8.runes text) ->
        t <> [] /\ Forall (fun p => unicode.IsSpace p.1 = false) t)
  /\ (forall ws1 text ws2,
        all_bytes ascii_space ws1 = true -> all_bytes ascii_space ws2 = true ->
        strings.Fields (ws1 +:+ text +:+ ws2) = strings.Fields text)
  /\ strings.Fields "  a   b  c " = ["a"; "b"; "c"]
  /\ run ["1"; "2"; "3"] (bufio.mkReader ("  a   b  c " +:+ nl) None)
     = mkOutcome 0 ("a" +:+ tb +:+ "b" +:+ tb +:+ "c" +:+ nl) [] 2.
Proof.
  repeat apply conj.
  - intros args [sep tab ih] positional stdin Hparse Hsep Htab Hscans.
    cbn in Hsep, Htab. subst sep tab.
    destruct (run_stdout _ _ _ _ Hparse Hscans) as (columns & re & Hcols & Hre & Hout).
    exists columns. split; [exact Hcols|].
    cbn in Hre. injection Hre as <-. exact Hout.
  - reflexivity.
  - apply FieldsFacts.Fields_words.
  - apply FieldsFacts.Fields_nonempty.
  - intros text t. apply FieldsFacts.words_clean.
  - apply FieldsFacts.Fields_trim.
  - vm_compute. reflexivity.
  - vm_compute. reflexivity.
Qed.

Example Fields_no_break_space :
  strings.Fields (String.append "a" (String (ascii_of_nat 194)
     (String (ascii_of_nat 160) "b"))) = ["a"; "b"].
Proof. vm_compute. reflexivity. Qed.

Example Fields_lone_byte :
  strings.Fields (String.append "a" (String (ascii_of_nat 160) "b"))
  = [String.append "a" (String (ascii_of_nat 160) "b")].
Proof. vm_compute. reflexivity. Qed.

(** ** Splitting at a literal separator *)

Module SplitFacts.

Import regexp.

Lemma length_drop n s : String.length (Bytes.drop n s) = (String.length s - n)%nat.
Proof.
  revert s. induction n as [|n IH]; intros [|c s]; cbn [Bytes.drop String.length];
    try lia. apply IH.
Qed.

Lemma drop_all n s : (String.length s <= n)%nat -> Bytes.drop n s = EmptyString.
Proof.
  revert s. induction n as [|n IH]; intros [|c s]; cbn [Bytes.drop String.length];
    try reflexivity; try lia. intros H. apply IH. lia.
Qed.

Lemma drop_app_le n a b :
  (n <= String.length a)%nat -> Bytes.drop n (a +:+ b) = Bytes.drop n a +:+ b.
Proof.
  revert a. induction n as [|n IH]; intros a H; [reflexivity|].
  destruct a as [|c a]; cbn [String.length] in H; [lia|].
  rewrite BytesFacts.append_cons. cbn [Bytes.drop]. apply IH. lia.
Qed.

Lemma take_app_exact a b : Bytes.take (String.length a) (a +:+ b) = a.
Proof.
  induction a as [|c a IH]; [now destruct b|].
  rewrite BytesFacts.append_cons. cbn [String.length Bytes.take]. now rewrite IH.
Qed.

(** [s[beg:len(pre)]] in [pre ++ s] is the end of [pre]. *)
Lemma slice_prefix beg pre s :
  (beg <= String.length pre)%nat ->
  Bytes.slice beg (String.length pre) (pre +:+ s) = Bytes.drop beg pre.
Proof.
  intros H. unfold Bytes.slice. rewrite drop_app_le by exact H.
  rewrite <- (length_drop beg pre). apply take_app_exact.
Qed.




Lemma length_snoc pre c :
  String.length (pre +:+ String c EmptyString) = S (String.length pre).
Proof. rewrite BytesFacts.length_append. cbn. lia. Qed.

Lemma append_snoc pre c s : (pre +:+ String c EmptyString) +:+ s = pre +:+ String c s.
Proof. now rewrite BytesFacts.append_assoc. Qed.

Lemma in_step_next k beg pre c :
  beg = (String.length pre + S k)%nat ->
  in_step k beg EmptyString (pre +:+ String c EmptyString).
Proof.
  intros ->. destruct k as [|k]; cbn [in_step]; rewrite length_snoc.
  - split; [lia|]. symmetry. apply drop_all. rewrite length_snoc. lia.
  - split; [lia|reflexivity].
Qed.

(** The loop of [Split] over the occurrences of a text computes the
    pieces between them. *)
Lemma fold_occurrences p : p <> EmptyString ->
  forall s pre skip cur strings beg end_,
    (end_ < String.length (pre +:+ s))%nat ->
    in_step skip beg cur pre ->
    (let '(strings', beg', end') :=
       fold_left (split_step (pre +:+ s))
         (occurrences p skip (String.length pre) s) (strings, beg, end_) in
     if negb (end' =? String.length (pre +:+ s))%nat
     then strings' ++ [Bytes.drop beg' (pre +:+ s)] else strings')
    = strings ++ pieces p skip cur s.
Proof.
  intros Hp. induction s as [|c s IH]; intros pre skip cur strings beg end_ Hend Hin.
  - cbn [occurrences fold_left pieces].
    rewrite BytesFacts.append_empty_r in *.
    apply Nat.lt_neq, Nat.eqb_neq in Hend. rewrite Hend. cbn [negb]. do 2 f_equal.
    destruct skip; cbn [in_step] in Hin; destruct Hin as [Hbeg ->];
      [reflexivity | apply drop_all; lia].
  - cbn [occurrences pieces]. rewrite <- (append_snoc pre c s) in *.
    rewrite <- (length_snoc pre c).
    destruct skip as [|k].
    + destruct Hin as [Hbeg ->].
      destruct (has_prefix p (String c s)) eqn:Hpre.
      * cbn [fold_left split_step].
        assert ((String.length pre + String.length p =? 0)%nat = false) as ->.
        { apply Nat.eqb_neq. destruct p; [contradiction|]. cbn. lia. }
        assert (Bytes.slice beg (String.length pre)
                  ((pre +:+ String c EmptyString) +:+ s)
                = Bytes.drop beg pre) as ->.
        { rewrite append_snoc. now apply slice_prefix. }
        rewrite IH with (cur := EmptyString).
        -- now rewrite <- app_assoc.
        -- rewrite BytesFacts.length_append, length_snoc. lia.
        -- destruct p as [|a p]; [contradiction|].
           change (String.length (String a p)) with (S (String.length p)).
           replace (S (String.length p) - 1)%nat with (String.length p) by lia.
           apply in_step_next. lia.
      * apply IH; [exact Hend|]. cbn [in_step]. rewrite length_snoc.
        split; [lia|]. now rewrite drop_app_le.
    + destruct Hin as [-> ->]. apply IH; [exact Hend|].
      now apply in_step_next.
Qed.

Lemma split_occurrences p s :
  p <> EmptyString -> s <> EmptyString ->
  split_matches s (occurrences p O O s) = pieces p O EmptyString s.
Proof.
  intros Hp Hs. unfold split_matches.
  apply (fold_occurrences p Hp s EmptyString O EmptyString [] O O).
  - destruct s as [|c s]; [contradiction|].
    rewrite BytesFacts.append_nil_l.
    change (String.length (String c s)) with (S (String.length s)). lia.
  - split; [cbn; lia|reflexivity].
Qed.

End SplitFacts.

Section Literal.

Import regexp.


Lemma is_literal_nonempty sep : is_literal sep = true -> sep <> EmptyString.
Proof.
  unfold is_literal. intros [H _]%andb_true_iff.
  now apply negb_true_iff, String.eqb_neq in H.
Qed.

Context {E : Engine}.
Hypothesis faithful : LiteralFaithful E.

(** On a literal pattern [Split] gives the pieces between the occurrences
    of its text. *)
Lemma literal_Split sep :
  is_literal sep = true ->
  exists re, Compile sep = inl re
             /\ forall text, Split re text = pieces sep O EmptyString text.
Proof.
  intros Hlit. destruct (faithful sep Hlit) as (p & Hp & Hfind).
  pose proof (is_literal_nonempty sep Hlit) as Hne.
  exists (mkRegexp _ sep p). unfold Compile. rewrite Hp. split; [reflexivity|].
  intros text. unfold Split. cbn [expr prog].
  destruct text as [|c text].
  - destruct sep; [contradiction|]. reflexivity.
  - replace (Bytes.len (String c text) =? 0) with false
      by (symmetry; apply Z.eqb_neq; unfold Bytes.len; cbn; lia).
    rewrite andb_false_r, Hfind.
    now apply SplitFacts.split_occurrences.
Qed.

Lemma literal_compile_separator sep :
  is_literal sep = true ->
  exists re, compile_separator sep = inl (Some re)
             /\ forall text, Split re text = pieces sep O EmptyString text.
Proof.
  intros Hlit. destruct (literal_Split sep Hlit) as (re & Hre & Hsplit).
  exists re. split; [|exact Hsplit]. unfold compile_separator.
  apply is_literal_nonempty, String.eqb_neq in Hlit. now rewrite Hlit, Hre.
Qed.

End Literal.





Lemma default_split_is_whitespace_words_witness :
  all_bytes ascii_space " " = true
  /\ all_bytes ascii_space "  " = true
  /\ strings.Fields (" " +:+ "a b" +:+ "  ") = strings.Fields "a b".
Proof.
  split; [reflexivity|]. split; [reflexivity|].
  apply (default_split_is_whitespace_words (E := regexp.LiteralEngine));
    reflexivity.
Defined.

(** ** The examples of the documentation *)

Example run_second_column {E : regexp.Engine} :
  run ["2"] (bufio.mkReader ("1 2 3" +:+ nl +:+ "4 5 6" +:+ nl +:+ "7 8 9" +:+ nl) None)
  = mkOutcome 0 ("2" +:+ nl +:+ "5" +:+ nl +:+ "8" +:+ nl) [] 4.
Proof. vm_compute. reflexivity. Qed.

Example run_missing_field {E : regexp.Engine} :
  run ["1"; "3"] (bufio.mkReader "a b" None) = mkOutcome 0 ("a" +:+ nl) [] 2.
Proof. vm_compute. reflexivity. Qed.

Example run_no_arguments {E : regexp.Engine} :
  run [] (bufio.mkReader "a b" None) = mkOutcome 1 usage_text [FlagDefaults] O.
Proof. reflexivity. Qed.

Example run_tab_separator :
  run (E := regexp.LiteralEngine) ["-t"; "2"]
    (bufio.mkReader ("a b" +:+ tb +:+ "c d" +:+ tb +:+ nl) None)
  = mkOutcome 0 ("c d" +:+ nl) [] 2.
Proof. vm_compute. reflexivity. Qed.

Example run_bad_pattern :
  status (run (E := regexp.LiteralEngine) ["-s"; "["; "1"] (bufio.mkReader "a" None)) = 1
  /\ scans (run (E := regexp.LiteralEngine) ["-s"; "["; "1"] (bufio.mkReader "a" None)) = O.
Proof. split; reflexivity. Qed.

Example run_read_error {E : regexp.Engine} :
  run ["1"] (bufio.mkReader ("a b" +:+ nl +:+ "c") (Some "broken pipe"))
  = mkOutcome 1 ("a" +:+ nl +:+ "c" +:+ nl)
      [ErrReadInput (bufio.ReadError "broken pipe")] 3.
Proof. vm_compute. reflexivity. Qed.

(** * Further properties of the program *)

(** ** The set of columns *)

Lemma ParseInt_range s c :
  strconv.ParseInt s = inl c -> - 2 ^ 63 <= c < 2 ^ 63.
Proof.
  assert (forall x, - 2 ^ 63 <= strconv.int64 x < 2 ^ 63) as Hwrap.
  { intros x. unfold strconv.int64.
    pose proof (Z.mod_pos_bound (x + 2 ^ 63) (2 ^ 64) ltac:(lia)). lia. }
  unfold strconv.ParseInt. destruct s as [|c0 s1]; [discriminate|].
  cbv zeta.
  destruct (strconv.ParseUint _) as [u|[]]; [|discriminate|];
    repeat match goal with
           | |- context [if ?b then _ else _] => destruct b
           end; try discriminate; intros [= <-]; apply Hwrap.
Qed.

(** X1: the loop over the arguments keeps the set within the column numbers a
    line can have: every member is at least 1 and fits an [int64]. *)
Theorem columns_are_positive args columns :
  parse_columns ∅ args = inl columns ->
  forall c, c ∈ columns -> 1 <= c < 2 ^ 63.
Proof.
  intros Hcols c Hc. apply parse_columns_inl in Hcols as [Hall Hmem].
  apply Hmem in Hc as [Hc|(a & Ha & Hparse)]; [now apply elem_of_empty in Hc|].
  rewrite Forall_forall in Hall. specialize (Hall a Ha).
  apply column_error_None in Hall as (c' & Hc' & Hpos).
  rewrite Hparse in Hc'. injection Hc' as <-.
  apply ParseInt_range in Hparse. lia.
Qed.

Lemma columns_are_positive_witness :
  parse_columns ∅ ["3"; "+1"; "9223372036854775807"]
    = inl ({[ 9223372036854775807 ]} ∪ ({[ 1 ]} ∪ ({[ 3 ]} ∪ ∅)))
  /\ 1 <= 9223372036854775807 < 2 ^ 63.
Proof.
  assert (parse_columns ∅ ["3"; "+1"; "9223372036854775807"]
          = inl ({[ 9223372036854775807 ]} ∪ ({[ 1 ]} ∪ ({[ 3 ]} ∪ ∅)))) as H
    by reflexivity.
  split; [exact H|].
  apply (columns_are_positive _ _ H). apply elem_of_union_l, elem_of_singleton.
  reflexivity.
Defined.

(** X2: the column arguments are a set: two lists of valid arguments that name
    the same column numbers, in any order, with or without repetitions and
    however the numbers are spelled, give the same run. *)
Theorem columns_order_irrelevant {E : regexp.Engine}
    args1 args2 fl positional1 positional2 stdin :
  flag.Parse flag.defaults args1 = flag.Parsed fl positional1 ->
  flag.Parse flag.defaults args2 = flag.Parsed fl positional2 ->
  Forall (fun a => column_error a = None) positional1 ->
  Forall (fun a => column_error a = None) positional2 ->
  (forall c, (exists a, a ∈ positional1 /\ strconv.ParseInt a = inl c)
             <-> (exists a, a ∈ positional2 /\ strconv.ParseInt a = inl c)) ->
  run args1 stdin = run args2 stdin.
Proof.
  intros Hparse1 Hparse2 Hvalid1 Hvalid2 Hsame.
  rewrite (run_parsed_eq _ _ _ _ Hparse1), (run_parsed_eq _ _ _ _ Hparse2).
  unfold run_parsed.
  destruct (parse_columns_valid positional1 ∅ Hvalid1) as [columns1 Hcols1].
  destruct (parse_columns_valid positional2 ∅ Hvalid2) as [columns2 Hcols2].
  rewrite Hcols1, Hcols2.
  apply parse_columns_inl in Hcols1 as [_ Hmem1].
  apply parse_columns_inl in Hcols2 as [_ Hmem2].
  assert (columns1 = columns2) as ->; [|reflexivity].
  apply set_eq. intros c. rewrite Hmem1, Hmem2, Hsame. reflexivity.
Qed.

Lemma columns_order_irrelevant_witness :
  run (E := regexp.LiteralEngine) ["-i"; "2"; "1"]
      (bufio.mkReader ("h h" +:+ nl +:+ "a b c") None)
  = run (E := regexp.LiteralEngine) ["-i"; "1"; "02"; "+1"]
      (bufio.mkReader ("h h" +:+ nl +:+ "a b c") None).
Proof.
  apply (columns_order_irrelevant (E := regexp.LiteralEngine)
           ["-i"; "2"; "1"] ["-i"; "1"; "02"; "+1"]
           (flag.mkFlags "" false true) ["2"; "1"] ["1"; "02"; "+1"]).
  - reflexivity.
  - reflexivity.
  - repeat constructor.
  - repeat constructor.
  - intros c. split; intros (a & Ha & Hc);
      repeat (apply elem_of_cons in Ha as [->|Ha];
              [vm_compute in Hc; injection Hc as <-|]);
      try (now apply elem_of_nil in Ha).
    + exists "02". split; [|reflexivity]. right. left.
    + exists "1". split; [|reflexivity]. left.
    + exists "1". split; [|reflexivity]. right. left.
    + exists "2". split; [|reflexivity]. left.
    + exists "1". split; [|reflexivity]. right. left.
Defined.

(** ** The separator *)

(** A list of valid column arguments holds no flag. *)
Lemma Parse_columns_only fl cols :
  Forall (fun a => column_error a = None) cols ->
  flag.Parse fl cols = flag.Parsed fl cols.
Proof.
  intros Hvalid. destruct cols as [|a cols]; [reflexivity|].
  apply Forall_cons in Hvalid as [Ha _]. now apply flags_end_at_first_column.
Qed.

(** X3: [-t] is [-s] with a tab: before the same column numbers the two give the
    same run, on every input and whatever the engine makes of the tab. *)
Theorem tab_flag_is_tab_separator {E : regexp.Engine} cols stdin :
  Forall (fun a => column_error a = None) cols ->
  run ("-t" :: cols) stdin = run ("-s" :: tb :: cols) stdin.
Proof.
  intros Hvalid. unfold run.
  change (flag.Parse flag.defaults ("-t" :: cols))
    with (flag.Parse (flag.mkFlags "" true false) cols).
  change (flag.Parse flag.defaults ("-s" :: tb :: cols))
    with (flag.Parse (flag.mkFlags tb false false) cols).
  rewrite !Parse_columns_only by exact Hvalid.
  unfold run_parsed. destruct (parse_columns ∅ cols); reflexivity.
Qed.

Lemma tab_flag_is_tab_separator_witness :
  run (E := regexp.LiteralEngine) ["-t"; "2"]
      (bufio.mkReader ("a b" +:+ tb +:+ "c d") None)
  = run (E := regexp.LiteralEngine) ["-s"; tb; "2"]
      (bufio.mkReader ("a b" +:+ tb +:+ "c d") None).
Proof.
  apply (tab_flag_is_tab_separator (E := regexp.LiteralEngine) ["2"]).
  repeat constructor.
Defined.

(** X4: a separator that does not compile ends the run before the input is
    read: status 1, the message with the separator and the reason on
    standard error, nothing on standard output. *)
Theorem bad_separator_stops_run {E : regexp.Engine}
    args fl positional stdin reason :
  flag.Parse flag.defaults args = flag.Parsed fl positional ->
  positional <> [] ->
  Forall (fun a => column_error a = None) positional ->
  flag.separator fl <> EmptyString ->
  flag.useTabSeparator fl = false ->
  regexp.compile (flag.separator fl) = inr reason ->
  run args stdin
  = mkOutcome 1 EmptyString [ErrSeparatorCompile (flag.separator fl) reason] O.
Proof.
  intros Hparse Hne Hvalid Hsep Htab Hcompile.
  rewrite (run_parsed_eq _ _ _ _ Hparse). unfold run_parsed.
  destruct (parse_columns_valid positional ∅ Hvalid) as [columns Hcols].
  rewrite Hcols. case_bool_decide as Hsize.
  - now apply (parse_columns_empty _ _ Hcols) in Hsize.
  - unfold effective_separator, compile_separator, regexp.Compile.
    rewrite Htab, andb_false_r, Hcompile.
    apply String.eqb_neq in Hsep. now rewrite Hsep.
Qed.

Lemma bad_separator_stops_run_witness :
  run (E := regexp.LiteralEngine) ["-s"; "["; "1"] (bufio.mkReader "a[b" None)
  = mkOutcome 1 EmptyString [ErrSeparatorCompile "[" "not a literal pattern"] O.
Proof.
  apply (bad_separator_stops_run (E := regexp.LiteralEngine)
           ["-s"; "["; "1"] (flag.mkFlags "[" false false) ["1"]).
  - reflexivity.
  - discriminate.
  - repeat constructor.
  - discriminate.
  - reflexivity.
  - reflexivity.
Defined.

(** ** The end of the input *)

(** X5: a read error after the last byte changes neither what is printed nor
    how often the scanner is called: the lines already split stay on
    standard output, and the run ends with status 1 and, when no line was
    too long, the message with the cause of the error. *)
Theorem read_error_keeps_output {E : regexp.Engine} args input cause :
  scans (run args (bufio.mkReader input None)) <> O ->
  stdout (run args (bufio.mkReader input (Some cause)))
    = stdout (run args (bufio.mkReader input None))
  /\ scans (run args (bufio.mkReader input (Some cause)))
     = scans (run args (bufio.mkReader input None))
  /\ status (run args (bufio.mkReader input (Some cause))) = 1
  /\ (status (run args (bufio.mkReader input None)) = 0 ->
      stderr (run args (bufio.mkReader input (Some cause)))
      = [ErrReadInput (bufio.ReadError cause)]).
Proof.
  unfold run. destruct (flag.Parse flag.defaults args) as [fl positional|e].
  - unfold run_parsed.
    destruct (parse_columns ∅ positional) as [columns|d]; [|now intros []].
    case_bool_decide; [now intros []|].
    destruct (negb _ && _); [now intros []|].
    destruct (compile_separator _) as [re|e]; [|now intros []].
    intros _. unfold scan_and_split, bufio.scan. cbn [bufio.data bufio.failure].
    destruct (bufio.tokens EmptyString input) as [lines [|]];
      cbn [stdout scans status stderr]; repeat split; discriminate.
  - destruct e; now intros [].
Qed.

Lemma read_error_keeps_output_witness :
  stdout (run (E := regexp.LiteralEngine) ["2"]
            (bufio.mkReader ("a b" +:+ nl +:+ "c d") (Some "closed")))
  = stdout (run (E := regexp.LiteralEngine) ["2"]
              (bufio.mkReader ("a b" +:+ nl +:+ "c d") None)).
Proof.
  apply (read_error_keeps_output (E := regexp.LiteralEngine) ["2"]).
  vm_compute. discriminate.
Defined.

(** ** The shape of an outcome *)

(** X6: whatever the arguments and the input: the status is 0, 1 or 2; a run
    that fails says so on standard error; standard error stays empty only
    in a run that scanned its input and ends with status 0; and a run that
    does not reach the scanner prints nothing but, possibly, the usage
    text. *)
Theorem outcome_shape {E : regexp.Engine} args stdin :
  (status (run args stdin) = 0 \/ status (run args stdin) = 1
   \/ status (run args stdin) = 2)
  /\ (status (run args stdin) <> 0 -> stderr (run args stdin) <> [])
  /\ (stderr (run args stdin) = [] ->
      status (run args stdin) = 0 /\ scans (run args stdin) <> O)
  /\ (scans (run args stdin) = O ->
      stdout (run args stdin) = EmptyString
      \/ stdout (run args stdin) = usage_text)
  /\ (status (run args stdin) = 2 ->
      exists e, flag.Parse flag.defaults args = flag.Failed e).
Proof.
  unfold run. destruct (flag.Parse flag.defaults args) as [fl positional|e].
  - unfold run_parsed.
    destruct (parse_columns ∅ positional) as [columns|d];
      [|cbn; repeat split; try tauto; try lia; discriminate].
    case_bool_decide;
      [cbn; repeat split; try tauto; try lia; discriminate|].
    destruct (negb _ && _);
      [cbn; repeat split; try tauto; try lia; discriminate|].
    destruct (compile_separator _) as [re|e];
      [|cbn; repeat split; try tauto; try lia; discriminate].
    unfold scan_and_split. destruct (bufio.scan stdin) as [lines [err|]];
      cbn [status stdout stderr scans];
      repeat split; try tauto; try lia; try discriminate.
  - destruct e; cbn; repeat split; try tauto; try lia; try discriminate;
      intros _; eexists; reflexivity.
Qed.

Lemma outcome_shape_witness :
  status (run (E := regexp.LiteralEngine) ["-x"] (bufio.mkReader "a" None)) = 2
  /\ exists e, flag.Parse flag.defaults ["-x"] = flag.Failed e.
Proof.
  assert (status (run (E := regexp.LiteralEngine) ["-x"] (bufio.mkReader "a" None)) = 2)
    as H by reflexivity.
  split; [exact H|].
  apply (outcome_shape (E := regexp.LiteralEngine) ["-x"] (bufio.mkReader "a" None)).
  exact H.
Defined.

(** ** Arguments after the first column *)

Lemma first_invalid args :
  ~ Forall (fun a => column_error a = None) args ->
  exists good bad rest d,
    args = good ++ bad :: rest
    /\ Forall (fun a => column_error a = None) good
    /\ column_error bad = Some d.
Proof.
  induction args as [|a args IH]; intros Hnot.
  - destruct Hnot. constructor.
  - destruct (column_error a) as [d|] eqn:Ha.
    + exists [], a, args, d. repeat split; [constructor | exact Ha].
    + destruct IH as (good & bad & rest & d & -> & Hgood & Hbad).
      { intros Hall. apply Hnot. now constructor. }
      exists (a :: good), bad, rest, d. repeat split; [now constructor | exact Hbad].
Qed.

(** X7: once the first argument is a column number nothing after it is a flag:
    an argument that starts with a minus sign, such as [-i], [-t] or [-s],
    is then a bad column argument, and the run ends with status 1, before
    any input is read and with nothing on standard output; the message is
    the one of the first bad argument. *)
Theorem dash_after_column_stops_run {E : regexp.Engine} first rest flagname stdin :
  column_error first = None ->
  String "-" flagname ∈ rest ->
  status (run (first :: rest) stdin) = 1
  /\ stdout (run (first :: rest) stdin) = EmptyString
  /\ scans (run (first :: rest) stdin) = O
  /\ exists good bad rest' d,
       rest = good ++ bad :: rest'
       /\ Forall (fun a => column_error a = None) good
       /\ bad ∈ rest /\ column_error bad = Some d
       /\ stderr (run (first :: rest) stdin) = [d].
Proof.
  intros Hfirst Hin. unfold run.
  rewrite (flags_end_at_first_column _ _ _ Hfirst). unfold run_parsed.
  destruct (first_invalid rest) as (good & bad & rest' & d & -> & Hgood & Hbad).
  { intros Hall. rewrite Forall_forall in Hall. specialize (Hall _ Hin).
    apply column_error_None in Hall as (c & Hc & Hpos).
    apply ParseIntFacts.ParseInt_minus in Hc. lia. }
  change (first :: good ++ bad :: rest') with ((first :: good) ++ bad :: rest').
  assert (Forall (fun a => column_error a = None) (first :: good)) as Hall
    by now constructor.
  rewrite (parse_columns_first_bad (first :: good) ∅ bad rest' d Hall Hbad).
  cbn. repeat split. exists good, bad, rest', d.
  split; [reflexivity|]. split; [exact Hgood|]. split; [|split; [exact Hbad|reflexivity]].
  apply elem_of_app. right. left.
Qed.

Lemma dash_after_column_stops_run_witness :
  status (run (E := regexp.LiteralEngine) ["3"; "-t"] (bufio.mkReader "a" None)) = 1.
Proof.
  apply (dash_after_column_stops_run (E := regexp.LiteralEngine) "3" ["-t"] "t").
  - reflexivity.
  - left.
Defined.

(** ** One output line for every line processed *)

Module CountFacts.

Lemma count_append c a b :
  count_byte c (a +:+ b) = (count_byte c a + count_byte c b)%nat.
Proof.
  induction a as [|x a IH]; [reflexivity|].
  rewrite BytesFacts.append_cons. cbn [count_byte]. rewrite IH. lia.
Qed.

Lemma count_drop_le c n : forall s,
  (count_byte c (Bytes.drop n s) <= count_byte c s)%nat.
Proof.
  induction n as [|n IH]; intros [|b s]; cbn [Bytes.drop count_byte]; try lia.
  specialize (IH s). lia.
Qed.

Lemma count_take_le c n : forall s,
  (count_byte c (Bytes.take n s) <= count_byte c s)%nat.
Proof.
  induction n as [|n IH]; intros [|b s]; cbn [Bytes.take count_byte]; try lia.
  specialize (IH s). lia.
Qed.

Lemma count_slice_le c lo hi s :
  (count_byte c (Bytes.slice lo hi s) <= count_byte c s)%nat.
Proof.
  unfold Bytes.slice.
  pose proof (count_take_le c (hi - lo) (Bytes.drop lo s)).
  pose proof (count_drop_le c lo s). lia.
Qed.

Lemma count_dropCR_le c s :
  (count_byte c (bufio.dropCR s) <= count_byte c s)%nat.
Proof.
  induction s as [|b s IH]; [reflexivity|].
  cbn [bufio.dropCR]. destruct s as [|b' s'].
  - destruct (Ascii.eqb b Bytes.carriage_return); cbn [count_byte]; lia.
  - cbn [count_byte] in *. lia.
Qed.

(** The scanner hands out lines without a newline. *)
Lemma tokens_no_newline input : forall cur ls long,
  count_byte Bytes.newline cur = O ->
  bufio.tokens cur input = (ls, long) ->
  Forall (fun l => count_byte Bytes.newline l = O) ls.
Proof.
  induction input as [|c rest IH]; intros cur ls long Hcur; cbn [bufio.tokens].
  - destruct (String.eqb cur EmptyString); [intros [= <- <-]; constructor|].
    destruct (bufio.too_long cur); intros [= <- <-]; repeat constructor.
    pose proof (count_dropCR_le Bytes.newline cur). lia.
  - destruct (Ascii.eqb c Bytes.newline) eqn:Hc.
    + destruct (bufio.too_long cur); [intros [= <- <-]; constructor|].
      destruct (bufio.tokens EmptyString rest) as [ls' long'] eqn:Hrest.
      intros [= <- <-]. constructor.
      * pose proof (count_dropCR_le Bytes.newline cur). lia.
      * eapply IH; [|exact Hrest]. reflexivity.
    + apply IH. rewrite count_append. cbn [count_byte]. rewrite Hc. lia.
Qed.

Lemma scan_no_newline r :
  Forall (fun l => count_byte Bytes.newline l = O) (bufio.scan r).1.
Proof.
  unfold bufio.scan.
  destruct (bufio.tokens EmptyString (bufio.data r)) as [ls long] eqn:H.
  cbn [fst]. eapply tokens_no_newline; [|exact H]. reflexivity.
Qed.

(** *** The fields hold no byte that the line does not hold *)

Lemma bytes_of_app a b : bytes_of (a ++ b) = bytes_of a +:+ bytes_of b.
Proof.
  induction a as [|p a IH]; [reflexivity|].
  cbn [app]. rewrite !FieldsFacts.bytes_of_cons, IH.
  now rewrite BytesFacts.append_assoc.
Qed.

Lemma count_concat_elem c (t : list (Z * string)) L :
  t ∈ L -> (count_byte c (bytes_of t) <= count_byte c (bytes_of (concat L)))%nat.
Proof.
  induction L as [|u L IH]; intros Hin; [now apply elem_of_nil in Hin|].
  cbn [concat]. rewrite bytes_of_app, count_append.
  apply elem_of_cons in Hin as [->|Hin]; [lia|]. specialize (IH Hin). lia.
Qed.

Lemma count_filter_le c (P : Z * string -> Prop) `{forall p, Decision (P p)} rs :
  (count_byte c (bytes_of (filter P rs)) <= count_byte c (bytes_of rs))%nat.
Proof.
  induction rs as [|p rs IH]; [reflexivity|].
  rewrite filter_cons. destruct (decide (P p));
    rewrite !FieldsFacts.bytes_of_cons, ?count_append; lia.
Qed.

Lemma Fields_count_le c text f :
  f ∈ strings.Fields text -> (count_byte c f <= count_byte c text)%nat.
Proof.
  rewrite FieldsFacts.Fields_words. intros (t & -> & Ht)%list_elem_of_fmap.
  unfold words in Ht. apply list_elem_of_filter in Ht as [_ Ht].
  pose proof (count_concat_elem c t _ Ht) as H1.
  rewrite FieldsFacts.tokens_between_all in H1.
  pose proof (count_filter_le c (fun p => unicode.IsSpace p.1 = false)
                (utf8.runes text)) as H2.
  rewrite FieldsFacts.runes_bytes in H2. lia.
Qed.

Lemma fold_split_count_le c s matches : forall strings beg end_,
  Forall (fun f => (count_byte c f <= count_byte c s)%nat) strings ->
  Forall (fun f => (count_byte c f <= count_byte c s)%nat)
    (fold_left (regexp.split_step s) matches (strings, beg, end_)).1.1.
Proof.
  induction matches as [|[m0 m1] matches IH]; intros strings beg end_ Hall.
  - exact Hall.
  - cbn [fold_left regexp.split_step]. apply IH.
    destruct (m1 =? 0)%nat; [exact Hall|].
    apply Forall_app. split; [exact Hall|].
    repeat constructor. apply count_slice_le.
Qed.

Lemma Split_count_le {E : regexp.Engine} c (re : regexp.Regexp) text f :
  f ∈ regexp.Split re text -> (count_byte c f <= count_byte c text)%nat.
Proof.
  unfold regexp.Split. destruct (_ && _).
  - intros Hin. apply list_elem_of_singleton in Hin as ->. cbn. lia.
  - unfold regexp.split_matches.
    pose proof (fold_split_count_le c text (regexp.findAll (regexp.prog re) text)
                  [] O O ltac:(constructor)) as Hall.
    destruct (fold_left _ _ _) as [[strings beg] end_]. cbn [fst] in Hall.
    rewrite Forall_forall in Hall.
    destruct (negb _); [|apply Hall].
    intros [Hin|Hin]%elem_of_app; [now apply Hall|].
    apply list_elem_of_singleton in Hin as ->. apply count_drop_le.
Qed.

Lemma split_line_count_le {E : regexp.Engine} c re text f :
  f ∈ split_line re text -> (count_byte c f <= count_byte c text)%nat.
Proof.
  destruct re as [re|]; cbn [split_line];
    [apply Split_count_le | apply Fields_count_le].
Qed.

(** *** Counting the newlines of the output *)

Lemma count_concat_tab c l :
  c <> Bytes.tab ->
  Forall (fun f => count_byte c f = O) l ->
  count_byte c (String.concat tb l) = O.
Proof.
  intros Hc. induction 1 as [|x l Hx Hl IH]; [reflexivity|].
  destruct l as [|y l]; [exact Hx|].
  rewrite BytesFacts.concat_cons2, !count_append, Hx, IH.
  cbn [tb count_byte]. destruct (Ascii.eqb_spec Bytes.tab c); [congruence|reflexivity].
Qed.

Lemma output_line_one_newline columns fields :
  Forall (fun f => count_byte Bytes.newline f = O) fields ->
  count_byte Bytes.newline (output_line columns fields) = 1%nat.
Proof.
  intros Hall. unfold output_line. rewrite count_append, count_concat_tab.
  - reflexivity.
  - discriminate.
  - rewrite Forall_forall in *. intros f Hf. apply Hall.
    apply (selected_from_lookup columns fields O f) in Hf as (k & Hk & _).
    eapply list_elem_of_lookup_2, Hk.
Qed.

Lemma output_of_newlines {E : regexp.Engine} columns re lines :
  Forall (fun l => count_byte Bytes.newline l = O) lines ->
  count_byte Bytes.newline (output_of columns re lines) = length lines.
Proof.
  induction 1 as [|text lines Htext _ IH]; [reflexivity|].
  rewrite output_of_cons, count_append, IH, output_line_one_newline.
  - reflexivity.
  - apply Forall_forall. intros f Hf.
    pose proof (split_line_count_le Bytes.newline re text f Hf). lia.
Qed.

End CountFacts.

(** X8: a run that reaches the scanner calls it once more than there are lines,
    and prints exactly one newline for every line it processes: all the
    lines, or all but the first with [-i].  No field ever brings a newline
    of its own into the output. *)
Theorem one_output_line_per_line {E : regexp.Engine} args fl positional stdin :
  flag.Parse flag.defaults args = flag.Parsed fl positional ->
  scans (run args stdin) <> O ->
  scans (run args stdin) = S (length (bufio.scan stdin).1)
  /\ count_byte Bytes.newline (stdout (run args stdin))
     = length (processed (flag.ignoreHeaderRow fl) (bufio.scan stdin).1)
  /\ length (processed (flag.ignoreHeaderRow fl) (bufio.scan stdin).1)
     = (length (bufio.scan stdin).1
        - if flag.ignoreHeaderRow fl then 1 else 0)%nat.
Proof.
  intros Hparse Hscans. split; [|split].
  - destruct (run_scans args stdin Hscans) as (fl' & pos' & columns & re & _ & _ & _ & ->).
    unfold scan_and_split. now destruct (bufio.scan stdin) as [lines [e|]].
  - destruct (run_stdout _ _ _ _ Hparse Hscans) as (columns & re & _ & _ & ->).
    apply CountFacts.output_of_newlines.
    pose proof (CountFacts.scan_no_newline stdin) as Hall.
    destruct (flag.ignoreHeaderRow fl); cbn [processed]; [|exact Hall].
    destruct (bufio.scan stdin).1 as [|l ls]; [constructor|].
    now apply Forall_cons in Hall as [_ Hall].
  - destruct (flag.ignoreHeaderRow fl); cbn [processed]; [|lia].
    destruct (bufio.scan stdin).1; cbn [tail length]; lia.
Qed.

Lemma one_output_line_per_line_witness :
  count_byte Bytes.newline
    (stdout (run (E := regexp.LiteralEngine) ["-i"; "-s"; ","; "2"]
               (bufio.mkReader ("h,h" +:+ nl +:+ "a,b" +:+ nl +:+ nl +:+ "c") None)))
  = 3%nat.
Proof.
  refine (proj1 (proj2 (one_output_line_per_line (E := regexp.LiteralEngine)
            ["-i"; "-s"; ","; "2"] (flag.mkFlags "," false true) ["2"]
            (bufio.mkReader ("h,h" +:+ nl +:+ "a,b" +:+ nl +:+ nl +:+ "c") None)
            _ _))).
  - reflexivity.
  - vm_compute. discriminate.
Defined.

(** ** The earlier revision against [main.go] *)

Section LegacyFacts.

Context {E : regexp.Engine}.
Variable Fprintf0 : string -> string.

Lemma print_fields_legacy_fixed columns fields :
  Fprintf0 tb = tb ->
  Forall (fun f => Fprintf0 f = f) fields ->
  forall i printed out,
    print_fields_legacy Fprintf0 columns i fields printed out
    = print_fields columns i fields printed out.
Proof.
  intros Htab. induction 1 as [|f rest Hf _ IH]; intros i printed out.
  - reflexivity.
  - cbn [print_fields_legacy print_fields]. rewrite Htab, Hf.
    case_bool_decide; apply IH.
Qed.

Lemma print_fields_legacy_none fields : forall i printed out,
  print_fields_legacy Fprintf0 ∅ i fields printed out = out.
Proof.
  induction fields as [|f rest IH]; intros i printed out; [reflexivity|].
  cbn [print_fields_legacy].
  rewrite bool_decide_eq_false_2 by apply not_elem_of_empty. apply IH.
Qed.

Lemma scan_loop_legacy_fixed columns re lines :
  (forall f, count_byte "%" f = O -> Fprintf0 f = f) ->
  Forall (fun l => count_byte "%" l = O) lines ->
  forall out,
    scan_loop_legacy Fprintf0 columns re lines out
    = scan_loop columns re false true lines out.
Proof.
  intros Hfix. induction 1 as [|text lines Htext _ IH]; intros out.
  - reflexivity.
  - cbn [scan_loop_legacy scan_loop andb]. rewrite IH. unfold print_line.
    rewrite (Hfix nl) by reflexivity.
    rewrite print_fields_legacy_fixed; [reflexivity | now apply Hfix |].
    apply Forall_forall. intros f Hf. apply Hfix.
    pose proof (CountFacts.split_line_count_le "%" re text f Hf). lia.
Qed.

Lemma scan_loop_legacy_none re lines : forall out,
  scan_loop_legacy Fprintf0 ∅ re lines out
  = out +:+ String.concat EmptyString (map (fun _ => Fprintf0 nl) lines).
Proof.
  induction lines as [|text lines IH]; intros out.
  - cbn. now rewrite BytesFacts.append_empty_r.
  - cbn [scan_loop_legacy map]. rewrite IH, print_fields_legacy_none.
    rewrite concat_empty_cons. now rewrite BytesFacts.append_assoc.
Qed.

End LegacyFacts.

(** X9: on an input without a percent sign, and with at least one column
    argument, the earlier revision does what [main.go] does without [-i]:
    the same status, output, messages and reads, provided the formatter
    leaves a text without percent sign as it is. *)
Theorem legacy_agrees_without_percent {E : regexp.Engine}
    (Fprintf0 : string -> string) separator useTabSeparator positional stdin :
  (forall f, count_byte "%" f = O -> Fprintf0 f = f) ->
  Forall (fun l => count_byte "%" l = O) (bufio.scan stdin).1 ->
  positional <> [] ->
  run_legacy_parsed Fprintf0 separator useTabSeparator positional stdin
  = run_parsed (flag.mkFlags separator useTabSeparator false) positional stdin.
Proof.
  intros Hfix Hlines Hne. unfold run_legacy_parsed, run_parsed.
  destruct (parse_columns ∅ positional) as [columns|d] eqn:Hcols; [|reflexivity].
  case_bool_decide as Hsize;
    [now apply (parse_columns_empty _ _ Hcols) in Hsize|].
  cbn [flag.separator flag.useTabSeparator flag.ignoreHeaderRow].
  destruct (negb _ && _); [reflexivity|].
  unfold effective_separator. cbn [flag.separator flag.useTabSeparator].
  destruct (compile_separator _) as [re|e]; [|reflexivity].
  unfold scan_and_split. destruct (bufio.scan stdin) as [lines err].
  cbn [fst] in Hlines. now rewrite scan_loop_legacy_fixed.
Qed.

Lemma legacy_agrees_without_percent_witness :
  run_legacy_parsed (E := regexp.LiteralEngine)
    (fun f => if (count_byte "%" f =? 0)%nat then f else "%!(NOVERB)")
    "," false ["2"] (bufio.mkReader ("a,b" +:+ nl +:+ "c,d") None)
  = run_parsed (E := regexp.LiteralEngine) (flag.mkFlags "," false false) ["2"]
      (bufio.mkReader ("a,b" +:+ nl +:+ "c,d") None).
Proof.
  apply (legacy_agrees_without_percent (E := regexp.LiteralEngine)).
  - intros f Hf. now rewrite Hf.
  - repeat constructor.
  - discriminate.
Defined.

(** X10: without a column argument the earlier revision still reads the whole
    input and prints one newline, through the formatter, for every line,
    where [main.go] prints the usage text and reads nothing. *)
Theorem legacy_without_columns {E : regexp.Engine}
    (Fprintf0 : string -> string) separator useTabSeparator stdin separatorRegex :
  negb (String.eqb separator EmptyString) && useTabSeparator = false ->
  compile_separator (if useTabSeparator then tb else separator)
    = inl separatorRegex ->
  stdout (run_legacy_parsed Fprintf0 separator useTabSeparator [] stdin)
    = String.concat EmptyString (map (fun _ => Fprintf0 nl) (bufio.scan stdin).1)
  /\ scans (run_legacy_parsed Fprintf0 separator useTabSeparator [] stdin)
     = S (length (bufio.scan stdin).1)
  /\ run_parsed (flag.mkFlags separator useTabSeparator false) [] stdin
     = mkOutcome 1 usage_text [FlagDefaults] O.
Proof.
  intros Hboth Hre. unfold run_legacy_parsed. cbn [parse_columns].
  rewrite Hboth, Hre. destruct (bufio.scan stdin) as [lines [e|]];
    cbn [stdout scans fst]; rewrite scan_loop_legacy_none;
    repeat split; reflexivity.
Qed.

Lemma legacy_without_columns_witness :
  stdout (run_legacy_parsed (E := regexp.LiteralEngine) (fun f => f) "" false []
            (bufio.mkReader ("a b" +:+ nl +:+ "c d" +:+ nl) None))
  = nl +:+ nl.
Proof.
  refine (proj1 (legacy_without_columns (E := regexp.LiteralEngine) (fun f => f)
            "" false (bufio.mkReader ("a b" +:+ nl +:+ "c d" +:+ nl) None) None _ _)).
  - reflexivity.
  - reflexivity.
Defined.

(** ** Reading the output back *)

Module TabFacts.

Import utf8.

Lemma first_high x :
  0x80 <= x ->
  match first x with
  | One r => True
  | Multi sz lo hi => 0x80 <= lo
  end.
Proof.
  intros Hx. destruct (first x) as [r|sz lo hi] eqn:H; [exact I|].
  eapply FieldsFacts.first_lo, H.
Qed.

Lemma first_One_low x r : first x = One r -> x < 0x80 -> r = x.
Proof. intros H Hx. rewrite FieldsFacts.first_ascii in H by exact Hx. congruence. Qed.

Lemma first_Multi_high x sz lo hi : first x = Multi sz lo hi -> 0x80 <= x.
Proof.
  intros H. destruct (Z.lt_ge_cases x 0x80) as [Hlt|Hge]; [|exact Hge].
  rewrite FieldsFacts.first_ascii in H by exact Hlt. discriminate.
Qed.

Lemma high_byte b : (0x80 <=? Bytes.code b) = true <-> 0x80 <= Bytes.code b.
Proof. apply Z.leb_le. Qed.

Lemma not_cont_high b : not_cont b = false -> (0x80 <=? Bytes.code b) = true.
Proof.
  unfold not_cont. intros [H _]%orb_false_iff.
  apply Z.ltb_ge in H. now apply Z.leb_le.
Qed.

(** Every rune of a string has the shape a decoder gives it. *)
Lemma runes_shape : forall n s,
  (String.length s <= n)%nat -> Forall rune_shape (runes s).
Proof.
  induction n as [|n IH]; intros s Hlen.
  { destruct s; [constructor | cbn in Hlen; lia]. }
  destruct s as [|b0 t1]; [constructor|].
  change (String.length (String b0 t1)) with (S (String.length t1)) in Hlen.
  assert (Forall rune_shape (runes t1)) as H1 by (apply IH; lia).
  assert (rune_shape (RuneError, String b0 EmptyString)
          \/ Bytes.code b0 < 0x80) as Hbad.
  { destruct (Z.lt_ge_cases (Bytes.code b0) 0x80) as [Hlt|Hge]; [now right|].
    left. right. cbn. rewrite andb_true_r. now apply Z.leb_le. }
  rewrite FieldsFacts.runes_unfold.
  destruct (first (Bytes.code b0)) as [r|sz lo hi] eqn:Hfirst.
  { constructor; [|exact H1].
    destruct (Z.lt_ge_cases (Bytes.code b0) 0x80) as [Hlt|Hge].
    - left. exists b0. repeat split; [exact Hlt|].
      cbn [fst]. now apply first_One_low.
    - right. cbn. rewrite andb_true_r. now apply Z.leb_le. }
  pose proof (first_Multi_high _ _ _ _ Hfirst) as Hb0.
  pose proof (FieldsFacts.first_lo _ _ _ _ Hfirst) as Hlo.
  destruct Hbad as [Hbad|Hlt]; [|lia].
  assert ((0x80 <=? Bytes.code b0) = true) as Hh0 by now apply Z.leb_le.
  destruct t1 as [|b1 t2]; [now constructor|].
  change (String.length (String b1 t2)) with (S (String.length t2)) in Hlen.
  assert (Forall rune_shape (runes t2)) as H2 by (apply IH; lia).
  destruct (_ || _) eqn:Hb1; [now constructor|].
  apply orb_false_iff in Hb1 as [Hb1 _]. apply Z.ltb_ge in Hb1.
  assert ((0x80 <=? Bytes.code b1) = true) as Hh1 by (apply Z.leb_le; lia).
  destruct (sz <=? 2)%nat.
  { constructor; [|exact H2]. right. cbn. now rewrite Hh0, Hh1. }
  destruct t2 as [|b2 t3]; [now constructor|].
  change (String.length (String b2 t3)) with (S (String.length t3)) in Hlen.
  assert (Forall rune_shape (runes t3)) as H3 by (apply IH; lia).
  destruct (not_cont b2) eqn:Hb2; [now constructor|].
  apply not_cont_high in Hb2.
  destruct (sz <=? 3)%nat.
  { constructor; [|exact H3]. right. cbn. now rewrite Hh0, Hh1, Hb2. }
  destruct t3 as [|b3 t4]; [now constructor|].
  change (String.length (String b3 t4)) with (S (String.length t4)) in Hlen.
  assert (Forall rune_shape (runes t4)) as H4 by (apply IH; lia).
  destruct (not_cont b3) eqn:Hb3; [now constructor|].
  apply not_cont_high in Hb3.
  constructor; [|exact H4]. right. cbn. now rewrite Hh0, Hh1, Hb2, Hb3.
Qed.

Lemma count_high c enc :
  Bytes.code c < 0x80 ->
  all_bytes (fun b => 0x80 <=? Bytes.code b) enc = true ->
  count_byte c enc = O.
Proof.
  intros Hc. induction enc as [|b enc IH]; [reflexivity|].
  cbn [all_bytes count_byte]. intros [Hb Henc]%andb_true_iff.
  rewrite (IH Henc). apply Z.leb_le in Hb.
  destruct (Ascii.eqb_spec b c) as [->|]; [lia|reflexivity].
Qed.

(** A rune that is no white space is not written with a white space
    byte. *)
Lemma rune_no_space c p :
  ascii_space c = true -> rune_shape p -> unicode.IsSpace p.1 = false ->
  count_byte c p.2 = O.
Proof.
  intros Hc Hshape Hp. apply FieldsFacts.ascii_space_code in Hc as [Hlt Hsp].
  destruct Hshape as [(b & -> & Hb & Hr)|Hhigh]; [|now apply count_high].
  cbn [count_byte]. destruct (Ascii.eqb_spec b c) as [->|]; [|reflexivity].
  rewrite Hr in Hp. congruence.
Qed.

(** No field of [strings.Fields] holds a white space byte. *)
Lemma Fields_no_space c text f :
  ascii_space c = true -> f ∈ strings.Fields text -> count_byte c f = O.
Proof.
  intros Hc. rewrite FieldsFacts.Fields_words.
  intros (t & -> & Ht)%list_elem_of_fmap.
  pose proof Ht as [_ Hclean]%FieldsFacts.words_clean.
  unfold words in Ht. apply list_elem_of_filter in Ht as [_ Ht].
  assert (Forall rune_shape t) as Hshape.
  { apply Forall_forall. intros p Hp.
    assert (p ∈ concat (tokens_between unicode.IsSpace (runes text))) as Hin.
    { apply list_elem_of_In, in_concat. exists t. split; now apply list_elem_of_In. }
    rewrite FieldsFacts.tokens_between_all in Hin.
    apply list_elem_of_filter in Hin as [_ Hin].
    pose proof (runes_shape (String.length text) text (Nat.le_refl _)) as Hall.
    rewrite Forall_forall in Hall. now apply Hall. }
  clear Ht. induction t as [|p t IH]; [reflexivity|].
  apply Forall_cons in Hclean as [Hp Hclean].
  apply Forall_cons in Hshape as [Hs Hshape].
  rewrite FieldsFacts.bytes_of_cons, CountFacts.count_append.
  now rewrite (rune_no_space c p Hc Hs Hp), IH.
Qed.

(** *** Splitting a tab-joined line at the tabs *)

Lemma pieces_tab_free x : forall cur s,
  count_byte Bytes.tab x = O ->
  pieces tb O cur (x +:+ s) = pieces tb O (cur +:+ x) s.
Proof.
  induction x as [|c x IH]; intros cur s Hx.
  - now rewrite BytesFacts.append_nil_l, BytesFacts.append_empty_r.
  - cbn [count_byte] in Hx. rewrite BytesFacts.append_cons. cbn [pieces].
    destruct (Ascii.eqb_spec c Bytes.tab) as [->|Hc]; [discriminate|].
    cbn [regexp.has_prefix tb].
    destruct (Ascii.eqb_spec Bytes.tab c) as [Heq|_]; [now destruct Hc|].
    cbn [andb]. rewrite IH by exact Hx.
    now rewrite BytesFacts.append_assoc.
Qed.

Lemma pieces_at_tab cur s :
  pieces tb O cur (tb +:+ s) = cur :: pieces tb O EmptyString s.
Proof. reflexivity. Qed.

Lemma pieces_join_tab l :
  l <> [] ->
  Forall (fun f => count_byte Bytes.tab f = O) l ->
  pieces tb O EmptyString (String.concat tb l) = l.
Proof.
  intros Hne Hall. induction Hall as [|x l Hx Hl IH]; [contradiction|].
  destruct l as [|y l].
  - cbn [String.concat]. rewrite <- (BytesFacts.append_empty_r x) at 1.
    now rewrite pieces_tab_free.
  - rewrite BytesFacts.concat_cons2, pieces_tab_free by exact Hx.
    rewrite pieces_at_tab, IH by discriminate. reflexivity.
Qed.

End TabFacts.

(** X11: the output can be read back: the fields of the default split hold no
    white space, so an output line without its newline, split again at the
    tabs as [-t] does, gives exactly the fields that were selected. *)
Theorem output_splits_back_at_tabs {E : regexp.Engine} columns text :
  regexp.LiteralFaithful E ->
  selected columns (strings.Fields text) <> [] ->
  exists re,
    compile_separator tb = inl (Some re)
    /\ split_line (Some re)
         (String.concat tb (selected columns (strings.Fields text)))
       = selected columns (strings.Fields text).
Proof.
  intros HE Hne.
  destruct (literal_compile_separator HE tb eq_refl) as (re & Hre & Hsplit).
  exists re. split; [exact Hre|]. cbn [split_line]. rewrite Hsplit.
  apply TabFacts.pieces_join_tab; [exact Hne|].
  apply Forall_forall. intros f Hf.
  apply (TabFacts.Fields_no_space Bytes.tab text f); [reflexivity|].
  apply (selected_from_lookup columns (strings.Fields text) O f) in Hf
    as (k & Hk & _).
  eapply list_elem_of_lookup_2, Hk.
Qed.

Lemma output_splits_back_at_tabs_witness :
  selected ({[ 1 ]} ∪ {[ 3 ]}) (strings.Fields " a  b c ") = ["a"; "c"]
  /\ exists re,
       compile_separator (E := regexp.LiteralEngine) tb = inl (Some re)
       /\ split_line (Some re)
            (String.concat tb
               (selected ({[ 1 ]} ∪ {[ 3 ]}) (strings.Fields " a  b c ")))
          = selected ({[ 1 ]} ∪ {[ 3 ]}) (strings.Fields " a  b c ").
Proof.
  split; [vm_compute; reflexivity|].
  apply (output_splits_back_at_tabs (E := regexp.LiteralEngine)
           ({[ 1 ]} ∪ {[ 3 ]}) " a  b c ").
  - intros pattern Hlit. exists pattern. cbn. rewrite Hlit. split; reflexivity.
  - vm_compute. discriminate.
Defined.

(** ** The message about the two separators *)

(** X12: the message that [-s] and [-t] cannot both be used is written exactly
    when the command line parses, has at least one column argument and only
    valid ones, and sets [-t] together with a separator that is not empty;
    an empty [-s] never conflicts with [-t]. *)
Theorem both_separators_message_iff {E : regexp.Engine} args stdin :
  ErrBothSeparators ∈ stderr (run args stdin)
  <-> exists fl positional,
        flag.Parse flag.defaults args = flag.Parsed fl positional
        /\ positional <> []
        /\ Forall (fun a => column_error a = None) positional
        /\ flag.separator fl <> EmptyString
        /\ flag.useTabSeparator fl = true.
Proof.
  split.
  - unfold run. destruct (flag.Parse flag.defaults args) as [fl positional|e].
    + unfold run_parsed.
      destruct (parse_columns ∅ positional) as [columns|d] eqn:Hcols.
      * case_bool_decide as Hsize.
        { intros Hin. apply list_elem_of_singleton in Hin. discriminate. }
        destruct (String.eqb_spec (flag.separator fl) EmptyString) as [Hsep|Hsep];
          destruct (flag.useTabSeparator fl) eqn:Htab; cbn [negb andb].
        3:{ intros _. exists fl, positional. repeat split; try assumption.
            - intros ->. now apply Hsize, (parse_columns_empty _ _ Hcols).
            - now apply parse_columns_inl in Hcols. }
        all: destruct (compile_separator _) as [re|e];
          [unfold scan_and_split; destruct (bufio.scan stdin) as [lines [err|]]|];
          cbn [stderr fail]; intros Hin;
          try (now apply elem_of_nil in Hin);
          apply list_elem_of_singleton in Hin; discriminate.
      * intros Hin. apply list_elem_of_singleton in Hin. subst d.
        now apply parse_columns_inr in Hcols.
    + destruct e; cbn; intros Hin;
        repeat (apply elem_of_cons in Hin as [Hin|Hin]; [discriminate|]);
        now apply elem_of_nil in Hin.
  - intros (fl & positional & Hparse & Hne & Hvalid & Hsep & Htab).
    rewrite (run_parsed_eq _ _ _ _ Hparse). unfold run_parsed.
    destruct (parse_columns_valid positional ∅ Hvalid) as [columns Hcols].
    rewrite Hcols. case_bool_decide as Hsize.
    + now apply (parse_columns_empty _ _ Hcols) in Hsize.
    + rewrite Htab. apply String.eqb_neq in Hsep. rewrite Hsep. left.
Qed.

Lemma both_separators_message_iff_witness :
  ErrBothSeparators ∉
    stderr (run (E := regexp.LiteralEngine) ["-s"; ""; "-t"; "1"]
              (bufio.mkReader "a" None)).
Proof.
  intros Hin.
  apply (both_separators_message_iff (E := regexp.LiteralEngine)) in Hin
    as (fl & positional & Hparse & _ & _ & Hsep & _).
  vm_compute in Hparse. injection Hparse as <- _. now apply Hsep.
Defined.

(** ** Nothing to print *)

(** X13: with nothing to process nothing is printed and the run succeeds: on an
    empty input a run with valid arguments exits with status 0 after a
    single call of the scanner, and with [-i] an input of one line, the
    header row, leaves standard output empty too. *)
Theorem nothing_to_print {E : regexp.Engine} args fl positional :
  flag.Parse flag.defaults args = flag.Parsed fl positional ->
  (scans (run args (bufio.mkReader EmptyString None)) <> O ->
   run args (bufio.mkReader EmptyString None) = mkOutcome 0 EmptyString [] 1)
  /\ (forall stdin header,
        flag.ignoreHeaderRow fl = true ->
        (bufio.scan stdin).1 = [header] ->
        scans (run args stdin) <> O ->
        stdout (run args stdin) = EmptyString).
Proof.
  intros Hparse. split.
  - intros Hscans.
    destruct (run_scans _ _ Hscans) as (fl' & pos' & columns & re & _ & _ & _ & ->).
    reflexivity.
  - intros stdin header Hih Hlines Hscans.
    destruct (run_stdout _ _ _ _ Hparse Hscans) as (columns & re & _ & _ & ->).
    now rewrite Hih, Hlines.
Qed.

Lemma nothing_to_print_witness :
  run (E := regexp.LiteralEngine) ["-t"; "1"; "2"] (bufio.mkReader EmptyString None)
  = mkOutcome 0 EmptyString [] 1.
Proof.
  refine (proj1 (nothing_to_print (E := regexp.LiteralEngine)
            ["-t"; "1"; "2"] (flag.mkFlags "" true false) ["1"; "2"] _) _).
  - reflexivity.
  - vm_compute. discriminate.
Defined.
